(** * Nutmeg: the model shared by the MIP and the CP engine

    A shallow embedding of [src/Nutmeg/Model.cpp]: the construction and
    destruction of [Model], the two callbacks that duplicate and release
    [ProblemData] when SCIP creates and discards its transformed problem,
    the dispatch of [minimize] and the CPU timer.

    SCIP, Geas and the C library are external.  Every call the code makes
    to SCIP (and to [clock]) is recorded, with the reply it got, in a
    history; the engine is a function from the history so far and the
    call to a reply, so the theorems hold for every deterministic engine.
    The macros [scip_assert], [release_assert], [debug_assert] and [err]
    abort the process; an aborted run is the outcome [Fatal]. *)

From Stdlib Require Import ZArith String Floats Lia.
From stdpp Require Import base list.

Local Open Scope Z_scope.

(** ** Data *)

(** [Int] is the signed integer of the code, [Float] its [double];
    a pointer is its address and [nullptr] is address 0. *)
Definition Int := Z.
Definition Float := float.
Definition ptr := Z.
Definition nullptr : ptr := 0.
Definition IntVar := Int.

Definition is_null (p : ptr) : bool := p =? nullptr.

(** [static_cast<Float>(z)] of an integer: the nearest [double], ties to
    even. *)
Definition Float_of_Z (z : Z) : Float :=
  SF2Prim (binary_normalize prec emax z 0 false).

Inductive SCIP_RETCODE := SCIP_OKAY | SCIP_FAILED (code : Z).

Inductive SCIP_VARTYPE := SCIP_VARTYPE_BINARY | SCIP_VARTYPE_INTEGER.

Inductive SCIP_OBJSENSE := SCIP_OBJSENSE_MINIMIZE | SCIP_OBJSENSE_MAXIMIZE.

(** The calls of [Model.cpp] into SCIP, with the arguments the code
    passes, and the two calls into the C runtime. *)
Inductive call :=
| SCIPcreate
| SCIPincludeDefaultPlugins (scip : ptr)
| SCIPsetIntParam (scip : ptr) (name : string) (value : Z)
| SCIPsetBoolParam (scip : ptr) (name : string) (value : bool)
| SCIPcreateProbBasic (scip : ptr) (name : string)
| SCIPsetObjsense (scip : ptr) (sense : SCIP_OBJSENSE)
| SCIPsetObjIntegral (scip : ptr)
| SCIPsetProbData (scip : ptr)
| SCIPcreateVarBasic (scip : ptr) (name : string) (lb ub obj : Float)
                     (vartype : SCIP_VARTYPE)
| SCIPaddVar (scip var : ptr)
| SCIPgetNegatedVar (scip var : ptr)
| SCIPincludeConshdlrGeas (scip : ptr)
| SCIPcreateConsBasicGeas (scip : ptr) (name : string)
| SCIPaddCons (scip cons : ptr)
| SCIPsetProbTrans (scip : ptr)
| SCIPsetProbDeltrans (scip : ptr)
| SCIPallocBlockMemory (scip : ptr)
| SCIPfreeBlockMemory (scip block : ptr)
| SCIPtransformCons (scip cons : ptr)
| SCIPtransformVar (scip var : ptr)
| SCIPreleaseCons (scip cons : ptr)
| SCIPreleaseVar (scip var : ptr)
| SCIPfree (scip : ptr)
| BMScheckEmptyMemory
| clock.

(** What a call answers: its return code and the value it stores through
    its output pointer (the new handle; for [clock], the tick count). *)
Record reply := { retcode : SCIP_RETCODE; out : ptr }.

Definition event : Type := call * reply.
Definition history := list event.

Definition calls (h : history) : list call := h.*1.

(** An argument of a diagnostic's format string. *)
Inductive fmt_arg := arg_int (n : Int) | arg_float (x : Float).

Inductive diagnostic :=
| scip_assert_failed (c : call) (rc : SCIP_RETCODE)
| release_assert_failed (fmt : string) (args : list fmt_arg)
| debug_assert_failed
| err_raised (fmt : string) (args : list fmt_arg)
| vector_out_of_range.

Inductive outcome (A : Type) :=
| Done (a : A) (h : history)
| Fatal (d : diagnostic) (h : history).
Arguments Done {A} a h.
Arguments Fatal {A} d h.

(** A computation of the code: it extends the history and returns, or
    aborts. *)
Definition M (A : Type) : Type := history -> outcome A.

Definition ret {A} (a : A) : M A := fun h => Done a h.

Definition bind {A B} (c : M A) (k : A -> M B) : M B :=
  fun h => match c h with
           | Done a h' => k a h'
           | Fatal d h' => Fatal d h'
           end.

Definition fatal {A} (d : diagnostic) : M A := fun h => Fatal d h.

Declare Scope prog_scope.
Delimit Scope prog_scope with prog.
Notation "x <- c ;; k" := (bind c (fun x => k))
  (at level 100, c at next level, right associativity) : prog_scope.
Notation "c ;;; k" := (bind c (fun _ => k))
  (at level 100, right associativity) : prog_scope.
Local Open Scope prog_scope.

(** Modelled from the spec: Geas is an external library.  Its atoms
    include the constants true and false, and its integer variables are
    created with bounds. *)
Inductive patom := at_False | at_True | at_var (id : Z).

Definition cp_intvar := nat.

(** Modelled from the spec: the Geas solver, as far as [Model.cpp] uses
    it.  [new_intvar] adds an integer variable with the given bounds and
    returns it. *)
Record geas_solver := { cp_domains : list (Int * Int) }.

Definition new_intvar (s : geas_solver) (lb ub : Int) : geas_solver * cp_intvar :=
  ({| cp_domains := cp_domains s ++ [(lb, ub)] |}, length (cp_domains s)).

(** The tables of [ProblemData] that [Model.cpp] reads and writes; the
    class is declared in a header outside this file. *)
Record ProblemData := {
  mip_bool_vars_ : list ptr;
  mip_neg_vars_idx_ : list Int;
  cp_bool_vars_ : list patom;
  bool_vars_name_ : list string;
  mip_int_vars_ : list ptr;
  mip_indicator_vars_idx_ : list (list Int);
  cp_int_vars_ : list cp_intvar;
  int_vars_lb_ : list Int;
  int_vars_ub_ : list Int;
  int_vars_name_ : list string;
  obj_var_idx_ : Int;
  cp_cons_ : ptr
}.

(** Modelled from the spec: the constructor of [ProblemData] is outside
    this file.  The tables start empty (the first variable created gets
    index 0) and the constraint handle is absent until the
    branch-and-cut constraint is created. *)
Definition ProblemData_init : ProblemData :=
  {| mip_bool_vars_ := []; mip_neg_vars_idx_ := []; cp_bool_vars_ := [];
     bool_vars_name_ := []; mip_int_vars_ := [];
     mip_indicator_vars_idx_ := []; cp_int_vars_ := [];
     int_vars_lb_ := []; int_vars_ub_ := []; int_vars_name_ := [];
     obj_var_idx_ := 0; cp_cons_ := nullptr |}.

Definition set_mip_bool_vars (v : list ptr) (pd : ProblemData) : ProblemData :=
  {| mip_bool_vars_ := v; mip_neg_vars_idx_ := mip_neg_vars_idx_ pd;
     cp_bool_vars_ := cp_bool_vars_ pd; bool_vars_name_ := bool_vars_name_ pd;
     mip_int_vars_ := mip_int_vars_ pd;
     mip_indicator_vars_idx_ := mip_indicator_vars_idx_ pd;
     cp_int_vars_ := cp_int_vars_ pd; int_vars_lb_ := int_vars_lb_ pd;
     int_vars_ub_ := int_vars_ub_ pd; int_vars_name_ := int_vars_name_ pd;
     obj_var_idx_ := obj_var_idx_ pd; cp_cons_ := cp_cons_ pd |}.

Definition set_mip_int_vars (v : list ptr) (pd : ProblemData) : ProblemData :=
  {| mip_bool_vars_ := mip_bool_vars_ pd;
     mip_neg_vars_idx_ := mip_neg_vars_idx_ pd;
     cp_bool_vars_ := cp_bool_vars_ pd; bool_vars_name_ := bool_vars_name_ pd;
     mip_int_vars_ := v;
     mip_indicator_vars_idx_ := mip_indicator_vars_idx_ pd;
     cp_int_vars_ := cp_int_vars_ pd; int_vars_lb_ := int_vars_lb_ pd;
     int_vars_ub_ := int_vars_ub_ pd; int_vars_name_ := int_vars_name_ pd;
     obj_var_idx_ := obj_var_idx_ pd; cp_cons_ := cp_cons_ pd |}.

Definition set_cp_cons (c : ptr) (pd : ProblemData) : ProblemData :=
  {| mip_bool_vars_ := mip_bool_vars_ pd;
     mip_neg_vars_idx_ := mip_neg_vars_idx_ pd;
     cp_bool_vars_ := cp_bool_vars_ pd; bool_vars_name_ := bool_vars_name_ pd;
     mip_int_vars_ := mip_int_vars_ pd;
     mip_indicator_vars_idx_ := mip_indicator_vars_idx_ pd;
     cp_int_vars_ := cp_int_vars_ pd; int_vars_lb_ := int_vars_lb_ pd;
     int_vars_ub_ := int_vars_ub_ pd; int_vars_name_ := int_vars_name_ pd;
     obj_var_idx_ := obj_var_idx_ pd; cp_cons_ := c |}.

(** Modelled from the spec: [nb_bool_vars()] is defined in a header
    outside this file; it is the length of the boolean table. *)
Definition nb_bool_vars (pd : ProblemData) : nat := length (mip_bool_vars_ pd).

(** Modelled from the spec: the enumerations [Method] and [Status] are
    declared in a header outside this file.  [Other raw] stands for a
    value that is none of the enumerators named here, with [raw] its
    integer value. *)
Module Method.
Inductive t := BC | LBBD | MIP | CP | Other (raw : Int).
End Method.

Module Status.
Inductive t := Unknown | Feasible | Optimal | Infeasible | Other (raw : Int).
End Status.

Record Model := {
  method_ : Method.t;
  mip_ : ptr;
  cp_ : geas_solver;
  probdata_ : ProblemData;
  status_ : Status.t;
  obj_ : Float;
  obj_bound_ : Float;
  time_limit_ : Float;
  start_time_ : Z;
  run_time_ : Float
}.

Definition set_mip (p : ptr) (m : Model) : Model :=
  {| method_ := method_ m; mip_ := p; cp_ := cp_ m; probdata_ := probdata_ m;
     status_ := status_ m; obj_ := obj_ m; obj_bound_ := obj_bound_ m;
     time_limit_ := time_limit_ m; start_time_ := start_time_ m;
     run_time_ := run_time_ m |}.

Definition set_cp (s : geas_solver) (m : Model) : Model :=
  {| method_ := method_ m; mip_ := mip_ m; cp_ := s; probdata_ := probdata_ m;
     status_ := status_ m; obj_ := obj_ m; obj_bound_ := obj_bound_ m;
     time_limit_ := time_limit_ m; start_time_ := start_time_ m;
     run_time_ := run_time_ m |}.

Definition set_probdata (pd : ProblemData) (m : Model) : Model :=
  {| method_ := method_ m; mip_ := mip_ m; cp_ := cp_ m; probdata_ := pd;
     status_ := status_ m; obj_ := obj_ m; obj_bound_ := obj_bound_ m;
     time_limit_ := time_limit_ m; start_time_ := start_time_ m;
     run_time_ := run_time_ m |}.

Definition set_timer (limit : Float) (start : Z) (m : Model) : Model :=
  {| method_ := method_ m; mip_ := mip_ m; cp_ := cp_ m;
     probdata_ := probdata_ m; status_ := status_ m; obj_ := obj_ m;
     obj_bound_ := obj_bound_ m; time_limit_ := limit; start_time_ := start;
     run_time_ := run_time_ m |}.

(** Reading [v[i]] of a vector at a signed index.  [operator[]] checks
    nothing: outside the vector the C++ behaviour is undefined, and a
    build without assertions may well go on with whatever it read.  Here
    the run stops with [vector_out_of_range], so that a returning run of
    the model never stands for a run with an undefined read.  A statement
    about a returning run therefore takes the range of an index it
    speaks of as a hypothesis and does not draw it from the return. *)
Definition vec_at {A} (v : list A) (i : Int) : M A :=
  if i <? 0 then fatal vector_out_of_range
  else match v !! Z.to_nat i with
       | Some x => ret x
       | None => fatal vector_out_of_range
       end.

(** A loop [for (idx = first; idx < size; ++idx)] with [count] rounds
    to go.  The loops of [Model.cpp] compare [idx] with the size of a
    vector that their body does not resize, so the number of rounds is
    known when the loop starts. *)
Fixpoint for_range {S} (body : nat -> S -> M S) (idx count : nat) (s : S) : M S :=
  match count with
  | O => ret s
  | Datatypes.S count' => s' <- body idx s ;; for_range body (Datatypes.S idx) count' s'
  end.

(** ** The code *)

Section Nutmeg.

(** The engine behind the calls: SCIP and the C runtime. *)
Variable engine : history -> call -> reply.

(** Whether the build compiles [debug_assert] in. *)
Variable debug_build : bool.

(** [ProblemData::is_pos_var] is defined in a header outside this file.
    It tells from the aliasing table whether an index is a positive
    variable; the rule it applies is a parameter here. *)
Variable pos_rule : list Int -> Int -> bool.

Definition is_pos_var (pd : ProblemData) (idx : Int) : bool :=
  pos_rule (mip_neg_vars_idx_ pd) idx.

(** Make a call and record it with its reply. *)
Definition extern (c : call) : M reply :=
  fun h => let r := engine h c in Done r (h ++ [(c, r)]).

(** Modelled from the spec: the macros [scip_assert], [release_assert],
    [debug_assert] and [err] are defined in a header outside this file.
    A failed check aborts with a diagnostic; [debug_assert] checks in
    debug builds only.

    [scip_assert(call)]: abort unless the call returns [SCIP_OKAY]. *)
Definition scip_assert (c : call) : M ptr :=
  r <- extern c ;;
  match retcode r with
  | SCIP_OKAY => ret (out r)
  | rc => fatal (scip_assert_failed c rc)
  end.

Definition release_assert (cond : bool) (fmt : string) (args : list fmt_arg) : M unit :=
  if cond then ret tt else fatal (release_assert_failed fmt args).

Definition debug_assert (cond : bool) : M unit :=
  if debug_build then (if cond then ret tt else fatal debug_assert_failed)
  else ret tt.

Definition err {A} (fmt : string) (args : list fmt_arg) : M A :=
  fatal (err_raised fmt args).

(** *** callback_probtrans *)

(** One round of the loop over the boolean table. *)
Definition transform_bool_var (scip : ptr) (idx : nat) (probdata : ProblemData)
  : M ProblemData :=
  if is_pos_var probdata (Z.of_nat idx) then
    var <- vec_at (mip_bool_vars_ probdata) (Z.of_nat idx) ;;
    var' <- scip_assert (SCIPtransformVar scip var) ;;
    ret (set_mip_bool_vars (<[idx := var']> (mip_bool_vars_ probdata)) probdata)
  else
    pos_idx <- vec_at (mip_neg_vars_idx_ probdata) (Z.of_nat idx) ;;
    debug_assert ((pos_idx >=? 0) && (pos_idx <? Z.of_nat idx)) ;;;
    pos_var <- vec_at (mip_bool_vars_ probdata) pos_idx ;;
    var' <- scip_assert (SCIPgetNegatedVar scip pos_var) ;;
    ret (set_mip_bool_vars (<[idx := var']> (mip_bool_vars_ probdata)) probdata).

(** The loop over [mip_int_vars_]: it returns the vector as the loop
    leaves it. *)
Fixpoint transform_int_vars (scip : ptr) (vars : list ptr) : M (list ptr) :=
  match vars with
  | [] => ret []
  | var :: rest =>
      var' <- (if is_null var then ret var
               else scip_assert (SCIPtransformVar scip var)) ;;
      rest' <- transform_int_vars scip rest ;;
      ret (var' :: rest')
  end.

(** The callback returns the address of the block it allocated and the
    [ProblemData] it built there; [Done] is the return of [SCIP_OKAY]. *)
Definition callback_probtrans (scip : ptr) (sourcedata : ProblemData)
  : M (ptr * ProblemData) :=
  block <- scip_assert (SCIPallocBlockMemory scip) ;;
  let probdata := sourcedata in
  probdata <- (if is_null (cp_cons_ probdata) then ret probdata
               else cons' <- scip_assert (SCIPtransformCons scip (cp_cons_ probdata)) ;;
                    ret (set_cp_cons cons' probdata)) ;;
  probdata <- for_range (transform_bool_var scip) 0 (nb_bool_vars probdata) probdata ;;
  int_vars <- transform_int_vars scip (mip_int_vars_ probdata) ;;
  ret (block, set_mip_int_vars int_vars probdata).

(** *** Releasing the handles of a [ProblemData]

    The same three steps are written out in [callback_probdeltrans] and
    in [Model::~Model].  [SCIPreleaseCons] and [SCIPreleaseVar] null the
    pointer they are given. *)
Definition release_cp_cons (scip : ptr) (probdata : ProblemData) : M ProblemData :=
  if is_null (cp_cons_ probdata) then ret probdata
  else scip_assert (SCIPreleaseCons scip (cp_cons_ probdata)) ;;;
       ret (set_cp_cons nullptr probdata).

Definition release_bool_var (scip : ptr) (idx : nat) (probdata : ProblemData)
  : M ProblemData :=
  if is_pos_var probdata (Z.of_nat idx) then
    var <- vec_at (mip_bool_vars_ probdata) (Z.of_nat idx) ;;
    scip_assert (SCIPreleaseVar scip var) ;;;
    ret (set_mip_bool_vars (<[idx := nullptr]> (mip_bool_vars_ probdata)) probdata)
  else ret probdata.

Fixpoint release_int_vars (scip : ptr) (vars : list ptr) : M (list ptr) :=
  match vars with
  | [] => ret []
  | var :: rest =>
      var' <- (if is_null var then ret var
               else scip_assert (SCIPreleaseVar scip var) ;;; ret nullptr) ;;
      rest' <- release_int_vars scip rest ;;
      ret (var' :: rest')
  end.

Definition release_handles (scip : ptr) (probdata : ProblemData) : M ProblemData :=
  probdata <- release_cp_cons scip probdata ;;
  probdata <- for_range (release_bool_var scip) 0 (nb_bool_vars probdata) probdata ;;
  int_vars <- release_int_vars scip (mip_int_vars_ probdata) ;;
  ret (set_mip_int_vars int_vars probdata).

(** *** callback_probdeltrans

    [scip_probdata] is the block and the [ProblemData] stored in it. *)
Definition callback_probdeltrans (scip : ptr) (scip_probdata : ptr * ProblemData)
  : M unit :=
  debug_assert (negb (is_null scip)) ;;;
  let '(block, probdata) := scip_probdata in
  release_handles scip probdata ;;;
  extern (SCIPfreeBlockMemory scip block) ;;;
  ret tt.

(** *** Model::Model *)

(** The constant [Infinity] is declared in a header outside this file;
    it is a parameter here. *)
Variable Infinity : Float.

(** The member initialisers. *)
Definition Model_init (method : Method.t) : Model :=
  {| method_ := method; mip_ := nullptr; cp_ := {| cp_domains := [] |};
     probdata_ := ProblemData_init; status_ := Status.Unknown;
     obj_ := Infinity; obj_bound_ := (- Infinity)%float;
     time_limit_ := 0%float; start_time_ := 0; run_time_ := 0%float |}.

(** The block that creates the variable representing false.  The entry
    that [emplace_back] appends is filled by [SCIPcreateVarBasic] through
    a reference; here it is appended once its value is known (a run that
    aborts in between leaves no [Model]). *)
Definition create_false (m : Model) : M Model :=
  mip_var <- scip_assert (SCIPcreateVarBasic (mip_ m) "false" 0%float 0%float 0%float SCIP_VARTYPE_BINARY) ;;
  release_assert (negb (is_null mip_var)) "Failed to create Boolean variable in MIP" [] ;;;
  scip_assert (SCIPaddVar (mip_ m) mip_var) ;;;
  let pd := probdata_ m in
  ret (set_probdata
         {| mip_bool_vars_ := mip_bool_vars_ pd ++ [mip_var];
            mip_neg_vars_idx_ := mip_neg_vars_idx_ pd ++ [1];
            cp_bool_vars_ := cp_bool_vars_ pd ++ [at_False];
            bool_vars_name_ := bool_vars_name_ pd ++ ["false"%string];
            mip_int_vars_ := mip_int_vars_ pd;
            mip_indicator_vars_idx_ := mip_indicator_vars_idx_ pd;
            cp_int_vars_ := cp_int_vars_ pd; int_vars_lb_ := int_vars_lb_ pd;
            int_vars_ub_ := int_vars_ub_ pd; int_vars_name_ := int_vars_name_ pd;
            obj_var_idx_ := obj_var_idx_ pd; cp_cons_ := cp_cons_ pd |} m).

(** The block that creates the variable representing true. *)
Definition create_true (m : Model) : M Model :=
  let pd := probdata_ m in
  false_var <- vec_at (mip_bool_vars_ pd) 0 ;;
  mip_var <- scip_assert (SCIPgetNegatedVar (mip_ m) false_var) ;;
  ret (set_probdata
         {| mip_bool_vars_ := mip_bool_vars_ pd ++ [mip_var];
            mip_neg_vars_idx_ := mip_neg_vars_idx_ pd ++ [0];
            cp_bool_vars_ := cp_bool_vars_ pd ++ [at_True];
            bool_vars_name_ := bool_vars_name_ pd ++ ["true"%string];
            mip_int_vars_ := mip_int_vars_ pd;
            mip_indicator_vars_idx_ := mip_indicator_vars_idx_ pd;
            cp_int_vars_ := cp_int_vars_ pd; int_vars_lb_ := int_vars_lb_ pd;
            int_vars_ub_ := int_vars_ub_ pd; int_vars_name_ := int_vars_name_ pd;
            obj_var_idx_ := obj_var_idx_ pd; cp_cons_ := cp_cons_ pd |} m).

(** The block that creates the variable representing 0. *)
Definition create_zero (m : Model) : M Model :=
  mip_var <- scip_assert (SCIPcreateVarBasic (mip_ m) "zero" 0%float 0%float 0%float SCIP_VARTYPE_INTEGER) ;;
  release_assert (negb (is_null mip_var)) "Failed to create integer variable in MIP" [] ;;;
  scip_assert (SCIPaddVar (mip_ m) mip_var) ;;;
  let pd := probdata_ m in
  let '(cp, cp_var) := new_intvar (cp_ m) 0 0 in
  ret (set_cp cp (set_probdata
         {| mip_bool_vars_ := mip_bool_vars_ pd;
            mip_neg_vars_idx_ := mip_neg_vars_idx_ pd;
            cp_bool_vars_ := cp_bool_vars_ pd;
            bool_vars_name_ := bool_vars_name_ pd;
            mip_int_vars_ := mip_int_vars_ pd ++ [mip_var];
            mip_indicator_vars_idx_ := mip_indicator_vars_idx_ pd ++ [[]];
            cp_int_vars_ := cp_int_vars_ pd ++ [cp_var];
            int_vars_lb_ := int_vars_lb_ pd ++ [0];
            int_vars_ub_ := int_vars_ub_ pd ++ [0];
            int_vars_name_ := int_vars_name_ pd ++ ["0"%string];
            obj_var_idx_ := 0; cp_cons_ := cp_cons_ pd |} m)).

(** The block that creates the constraint handler for Geas. *)
Definition create_cp_cons (m : Model) : M Model :=
  match method_ m with
  | Method.BC =>
      scip_assert (SCIPincludeConshdlrGeas (mip_ m)) ;;;
      cons <- scip_assert (SCIPcreateConsBasicGeas (mip_ m) "Geas") ;;
      scip_assert (SCIPaddCons (mip_ m) cons) ;;;
      ret (set_probdata (set_cp_cons cons (probdata_ m)) m)
  | _ => ret m
  end.

Definition Model_ctor (method : Method.t) : M Model :=
  let m := Model_init method in
  mip <- scip_assert SCIPcreate ;;
  let m := set_mip mip m in
  scip_assert (SCIPincludeDefaultPlugins (mip_ m)) ;;;
  scip_assert (SCIPsetIntParam (mip_ m) "parallel/maxnthreads" 1) ;;;
  scip_assert (SCIPsetIntParam (mip_ m) "lp/threads" 1) ;;;
  scip_assert (SCIPsetBoolParam (mip_ m) "presolving/donotmultaggr" true) ;;;
  scip_assert (SCIPsetIntParam (mip_ m) "presolving/maxrestarts" 0) ;;;
  scip_assert (SCIPcreateProbBasic (mip_ m) "Nutmeg") ;;;
  scip_assert (SCIPsetObjsense (mip_ m) SCIP_OBJSENSE_MINIMIZE) ;;;
  scip_assert (SCIPsetObjIntegral (mip_ m)) ;;;
  scip_assert (SCIPsetProbData (mip_ m)) ;;;
  m <- create_false m ;;
  m <- create_true m ;;
  m <- create_zero m ;;
  m <- create_cp_cons m ;;
  scip_assert (SCIPsetProbTrans (mip_ m)) ;;;
  scip_assert (SCIPsetProbDeltrans (mip_ m)) ;;;
  ret m.

(** *** Model::~Model *)

Definition Model_dtor (m : Model) : M unit :=
  release_handles (mip_ m) (probdata_ m) ;;;
  scip_assert (SCIPfree (mip_ m)) ;;;
  extern BMScheckEmptyMemory ;;;
  ret tt.

(** *** Model::minimize and Model::start_timer

    The four strategies are defined in other files of the repository;
    they are parameters here. *)
Variables minimize_using_bc minimize_using_lbbd minimize_using_mip
          minimize_using_cp : Model -> IntVar -> Float -> M Model.

Definition minimize (m : Model) (obj_var : IntVar) (time_limit : Float) : M Model :=
  match method_ m with
  | Method.BC => minimize_using_bc m obj_var time_limit
  | Method.LBBD => minimize_using_lbbd m obj_var time_limit
  | Method.MIP => minimize_using_mip m obj_var time_limit
  | Method.CP => minimize_using_cp m obj_var time_limit
  | Method.Other raw => err "Invalid method {}" [arg_int raw]
  end.

Definition start_timer (m : Model) (time_limit : Float) : M Model :=
  release_assert (0 <? time_limit)%float "Time limit {} is invalid"
                 [arg_float time_limit] ;;;
  let m := set_timer time_limit (start_time_ m) m in
  now <- extern clock ;;
  ret (set_timer (time_limit_ m) (out now) m).

(** *** Model::get_cpu_time and Model::get_time_remaining

    [CLOCKS_PER_SEC] is a macro and [clock_t] a type of the C library;
    the macro and the width of the type are parameters here.  [clock_t]
    is taken as a signed two's-complement integer of [clock_t_bits]
    bits, as on Linux, and the difference of two readings wraps around
    at that width. *)
Variable CLOCKS_PER_SEC : Z.
Variable clock_t_bits : Z.

Definition clock_t_wrap (z : Z) : Z :=
  (z + 2 ^ (clock_t_bits - 1)) mod 2 ^ clock_t_bits - 2 ^ (clock_t_bits - 1).

Definition get_cpu_time (m : Model) : M Float :=
  current_time <- extern clock ;;
  ret (Float_of_Z (clock_t_wrap (out current_time - start_time_ m))
       / Float_of_Z CLOCKS_PER_SEC)%float.

Definition get_time_remaining (m : Model) : M Float :=
  cpu_time <- get_cpu_time m ;;
  ret (time_limit_ m - cpu_time)%float.

End Nutmeg.

(** ** Instances used to run the code

    An engine under which every call succeeds and stores a fresh
    non-null handle, and a rule for [is_pos_var]: an index is positive
    unless its aliasing index is strictly smaller than the index. *)
Definition engine_fresh : history -> call -> reply :=
  fun h _ => {| retcode := SCIP_OKAY; out := Z.of_nat (length h) + 1 |}.

Definition pos_rule_le : list Int -> Int -> bool :=
  fun neg_idx idx =>
    match neg_idx !! Z.to_nat idx with
    | Some p => negb (p <? idx)
    | None => false
    end.

(** Modelled from the spec: the rule of section 3 of the specification,
    an index is positive when its aliasing index is the index itself. *)
Definition pos_rule_self : list Int -> Int -> bool :=
  fun neg_idx idx =>
    match neg_idx !! Z.to_nat idx with
    | Some p => p =? idx
    | None => false
    end.

(** An engine that refuses the call made after [n] calls and accepts
    every other one. *)
Definition engine_stops_at (n : nat) : history -> call -> reply :=
  fun h _ => {| retcode := if (length h =? n)%nat then SCIP_FAILED 0
                           else SCIP_OKAY;
                out := Z.of_nat (length h) + 1 |}.

(** An engine that accepts every call and always stores the same value:
    under it the clock stands still. *)
Definition engine_still : history -> call -> reply :=
  fun _ _ => {| retcode := SCIP_OKAY; out := 7 |}.

(** A table with constant false, constant true and one more positive
    variable, an integer handle that is present and one that is absent,
    and a constraint. *)
Definition sample_data : ProblemData :=
  {| mip_bool_vars_ := [11; 13; 31];
     mip_neg_vars_idx_ := [1; 0; 2];
     cp_bool_vars_ := [at_False; at_True; at_var 0];
     bool_vars_name_ := ["false"%string; "true"%string; "b"%string];
     mip_int_vars_ := [14; nullptr];
     mip_indicator_vars_idx_ := [[]; []];
     cp_int_vars_ := [0%nat; 1%nat];
     int_vars_lb_ := [0; 0]; int_vars_ub_ := [0; 10];
     int_vars_name_ := ["0"%string; "x"%string];
     obj_var_idx_ := 0; cp_cons_ := 17 |}.

(** A [Model] around [sample_data]. *)
Definition sample_model : Model :=
  {| method_ := Method.BC; mip_ := 1; cp_ := {| cp_domains := [(0, 0); (0, 10)] |};
     probdata_ := sample_data; status_ := Status.Unknown;
     obj_ := infinity; obj_bound_ := neg_infinity;
     time_limit_ := 0%float; start_time_ := 0; run_time_ := 0%float |}.

(** ** What the statements speak about *)

(** The four strategies, and the one a method selects. *)
Inductive strategy := using_bc | using_lbbd | using_mip | using_cp.

Definition strategy_of (method : Method.t) : option strategy :=
  match method with
  | Method.BC => Some using_bc
  | Method.LBBD => Some using_lbbd
  | Method.MIP => Some using_mip
  | Method.CP => Some using_cp
  | Method.Other _ => None
  end.

Definition run_strategy (bc lbbd mip cp : Model -> IntVar -> Float -> M Model)
    (s : strategy) : Model -> IntVar -> Float -> M Model :=
  match s with
  | using_bc => bc
  | using_lbbd => lbbd
  | using_mip => mip
  | using_cp => cp
  end.

(** Modelled from the spec: the four strategies [minimize_using_bc],
    [minimize_using_lbbd], [minimize_using_mip] and [minimize_using_cp],
    which are defined in other files of the repository.  The
    specification has a call of [minimize] start the CPU timer and
    validate the time limit; [Model::minimize] does neither itself, so
    a strategy is taken to begin with [start_timer(time_limit)] and to
    go on with its solve, [solve], on the model that has the timer
    set. *)
Definition timed_strategy (engine : history -> call -> reply)
    (solve : Model -> IntVar -> Float -> M Model)
    : Model -> IntVar -> Float -> M Model :=
  fun m obj_var time_limit =>
    m' <- start_timer engine m time_limit ;;
    solve m' obj_var time_limit.

(** [minimize] over four such strategies. *)
Definition minimize_timed (engine : history -> call -> reply)
    (bc lbbd mip cp : Model -> IntVar -> Float -> M Model)
    : Model -> IntVar -> Float -> M Model :=
  minimize (timed_strategy engine bc) (timed_strategy engine lbbd)
           (timed_strategy engine mip) (timed_strategy engine cp).

(** The handles of the boolean table at the positive indices, in index
    order; [idx] is the index of the first entry of [vars]. *)
Fixpoint positive_from (pos_rule : list Int -> Int -> bool) (neg_idx : list Int)
    (idx : nat) (vars : list ptr) : list ptr :=
  match vars with
  | [] => []
  | var :: rest =>
      (if pos_rule neg_idx (Z.of_nat idx) then [var] else [])
        ++ positive_from pos_rule neg_idx (S idx) rest
  end.

Definition positive_handles (pos_rule : list Int -> Int -> bool)
    (pd : ProblemData) : list ptr :=
  positive_from pos_rule (mip_neg_vars_idx_ pd) 0 (mip_bool_vars_ pd).

(** The handles of a vector that are present. *)
Definition present_handles (vars : list ptr) : list ptr :=
  filter (fun var => var <> nullptr) vars.

(** The calls that release the handles of a [ProblemData]: the
    constraint, the positive boolean variables, the integer variables. *)
Definition release_calls (pos_rule : list Int -> Int -> bool) (scip : ptr)
    (pd : ProblemData) : list call :=
  (if is_null (cp_cons_ pd) then [] else [SCIPreleaseCons scip (cp_cons_ pd)])
    ++ (SCIPreleaseVar scip <$> positive_handles pos_rule pd)
    ++ (SCIPreleaseVar scip <$> present_handles (mip_int_vars_ pd)).

(** What SCIP hands out and takes back.  Creating or transforming a
    variable or a constraint captures it and allocating a block reserves
    it; releasing and freeing give them back.  [SCIPgetNegatedVar]
    captures nothing: the negation belongs to its variable. *)
Inductive resource := res_block (p : ptr) | res_cons (p : ptr) | res_var (p : ptr).

Definition captures (c : call) : bool :=
  match c with
  | SCIPallocBlockMemory _ | SCIPtransformCons _ _ | SCIPtransformVar _ _
  | SCIPcreateVarBasic _ _ _ _ _ _ | SCIPcreateConsBasicGeas _ _ => true
  | _ => false
  end.

Definition acquired_by (e : event) : list resource :=
  match e.1 with
  | SCIPallocBlockMemory _ => [res_block (out e.2)]
  | SCIPtransformCons _ _ | SCIPcreateConsBasicGeas _ _ => [res_cons (out e.2)]
  | SCIPtransformVar _ _ | SCIPcreateVarBasic _ _ _ _ _ _ => [res_var (out e.2)]
  | _ => []
  end.

Definition release_of (c : call) : list resource :=
  match c with
  | SCIPfreeBlockMemory _ p => [res_block p]
  | SCIPreleaseCons _ c => [res_cons c]
  | SCIPreleaseVar _ v => [res_var v]
  | _ => []
  end.

Definition acquired (evs : history) : list resource := evs ≫= acquired_by.
Definition released (evs : history) : list resource := calls evs ≫= release_of.

(** The sentinel entries in the tables that hold no handle. *)
Definition sentinel_tables (pd : ProblemData) : Prop :=
  cp_bool_vars_ pd !! 0%nat = Some at_False
  /\ bool_vars_name_ pd !! 0%nat = Some "false"%string
  /\ cp_bool_vars_ pd !! 1%nat = Some at_True
  /\ bool_vars_name_ pd !! 1%nat = Some "true"%string
  /\ mip_neg_vars_idx_ pd !! 1%nat = Some 0
  /\ int_vars_lb_ pd !! 0%nat = Some 0
  /\ int_vars_ub_ pd !! 0%nat = Some 0
  /\ int_vars_name_ pd !! 0%nat = Some "0"%string.

(** The invariant of the aliasing table in the words of the
    specification: every entry is an index of the table and is either
    the index it sits at or a positive entry at a smaller index. *)
Definition neg_idx_self_or_back (pos_rule : list Int -> Int -> bool)
    (pd : ProblemData) : Prop :=
  forall (i : nat) (p : Int),
    mip_neg_vars_idx_ pd !! i = Some p ->
    0 <= p < Z.of_nat (nb_bool_vars pd)
    /\ (p = Z.of_nat i
        \/ (p < Z.of_nat i /\ is_pos_var pos_rule pd p = true)).

(** The history an outcome ends with. *)
Definition history_of {A} (o : outcome A) : history :=
  match o with
  | Done _ h | Fatal _ h => h
  end.

(** A computation that, whether it returns or aborts, only adds calls
    that satisfy [P] to the history. *)
Definition emits {A} (P : call -> Prop) (c : M A) : Prop :=
  forall h, exists evs, history_of (c h) = h ++ evs /\ Forall P (calls evs).

(** The abort of a [scip_assert]: the last call recorded was refused and
    the diagnostic names it. *)
Definition refused_last_call (h : history) (d : diagnostic) : Prop :=
  exists h0 c r, h = h0 ++ [(c, r)] /\ retcode r <> SCIP_OKAY
                 /\ d = scip_assert_failed c (retcode r).

(** The abort of the [release_assert] of the constructor: the last call
    recorded created a variable and stored a null handle. *)
Definition null_variable_created (h : history) (d : diagnostic) : Prop :=
  exists h0 scip name lb ub obj vartype r fmt,
    h = h0 ++ [(SCIPcreateVarBasic scip name lb ub obj vartype, r)]
    /\ retcode r = SCIP_OKAY /\ out r = nullptr
    /\ d = release_assert_failed fmt [].

(** The calls of the transformation callback. *)
Definition transform_call (scip : ptr) (c : call) : Prop :=
  c = SCIPallocBlockMemory scip
  \/ (exists cons, c = SCIPtransformCons scip cons)
  \/ (exists var, c = SCIPtransformVar scip var)
  \/ (exists var, c = SCIPgetNegatedVar scip var).

(** The calls of a complete construction, in their order. *)
Definition ctor_calls (method : Method.t) (mip false_var zero_var cons : ptr)
  : list call :=
  [ SCIPcreate;
    SCIPincludeDefaultPlugins mip;
    SCIPsetIntParam mip "parallel/maxnthreads" 1;
    SCIPsetIntParam mip "lp/threads" 1;
    SCIPsetBoolParam mip "presolving/donotmultaggr" true;
    SCIPsetIntParam mip "presolving/maxrestarts" 0;
    SCIPcreateProbBasic mip "Nutmeg";
    SCIPsetObjsense mip SCIP_OBJSENSE_MINIMIZE;
    SCIPsetObjIntegral mip;
    SCIPsetProbData mip;
    SCIPcreateVarBasic mip "false" 0%float 0%float 0%float SCIP_VARTYPE_BINARY;
    SCIPaddVar mip false_var;
    SCIPgetNegatedVar mip false_var;
    SCIPcreateVarBasic mip "zero" 0%float 0%float 0%float SCIP_VARTYPE_INTEGER;
    SCIPaddVar mip zero_var ]
  ++ match method with
     | Method.BC => [ SCIPincludeConshdlrGeas mip;
                      SCIPcreateConsBasicGeas mip "Geas";
                      SCIPaddCons mip cons ]
     | _ => []
     end
  ++ [ SCIPsetProbTrans mip; SCIPsetProbDeltrans mip ].

(** The parallel tables of a [ProblemData] have equal lengths. *)
Definition tables_aligned (pd : ProblemData) : Prop :=
  length (mip_neg_vars_idx_ pd) = length (mip_bool_vars_ pd)
  /\ length (cp_bool_vars_ pd) = length (mip_bool_vars_ pd)
  /\ length (bool_vars_name_ pd) = length (mip_bool_vars_ pd)
  /\ length (mip_indicator_vars_idx_ pd) = length (mip_int_vars_ pd)
  /\ length (cp_int_vars_ pd) = length (mip_int_vars_ pd)
  /\ length (int_vars_lb_ pd) = length (mip_int_vars_ pd)
  /\ length (int_vars_ub_ pd) = length (mip_int_vars_ pd)
  /\ length (int_vars_name_ pd) = length (mip_int_vars_ pd).

(** An engine that accepts every call. *)
Definition engine_accepts (engine : history -> call -> reply) : Prop :=
  forall h c, retcode (engine h c) = SCIP_OKAY.

(** An engine that never hands out a null handle with [SCIP_OKAY]. *)
Definition engine_nonnull (engine : history -> call -> reply) : Prop :=
  forall h c, captures c = true -> retcode (engine h c) = SCIP_OKAY ->
              out (engine h c) <> nullptr.

(** Every aliased entry of the table refers to a positive entry at a
    strictly smaller index. *)
Definition aliases_point_back (pos_rule : list Int -> Int -> bool)
    (pd : ProblemData) : Prop :=
  forall (idx : nat) (p : Int),
    is_pos_var pos_rule pd (Z.of_nat idx) = false ->
    mip_neg_vars_idx_ pd !! idx = Some p ->
    0 <= p < Z.of_nat idx /\ is_pos_var pos_rule pd p = true.

(** ** Properties *)

Section Properties.

Variable engine : history -> call -> reply.
Variable debug_build : bool.
Variable pos_rule : list Int -> Int -> bool.

(** *** Reading a finished run backwards *)

Lemma bind_Done {A B} (c : M A) (k : A -> M B) h b h' :
  bind c k h = Done b h' ->
  exists a h1, c h = Done a h1 /\ k a h1 = Done b h'.
Proof.
  unfold bind. destruct (c h) as [a h1|d h1]; [eauto | discriminate].
Qed.

Lemma ret_Done {A} (a b : A) h h' : ret a h = Done b h' -> b = a /\ h' = h.
Proof. unfold ret. intros [= -> ->]. done. Qed.

(** [answered h c r]: [r] is what the engine replies to [c] after [h]. *)
Definition answered (h : history) (c : call) (r : reply) : Prop :=
  r = engine h c.

Lemma extern_Done c h r h' :
  extern engine c h = Done r h' -> answered h c r /\ h' = h ++ [(c, r)].
Proof. unfold extern, answered. intros [= <- <-]. done. Qed.

Lemma scip_assert_Done c h p h' :
  scip_assert engine c h = Done p h' ->
  exists r, answered h c r /\ retcode r = SCIP_OKAY /\ p = out r
            /\ h' = h ++ [(c, r)].
Proof.
  unfold scip_assert, bind, extern, ret, fatal, answered.
  destruct (retcode (engine h c)) eqn:E; [|discriminate].
  intros [= <- <-]. eauto.
Qed.

Lemma vec_at_Done {A} (v : list A) i h x h' :
  vec_at v i h = Done x h' -> 0 <= i /\ v !! Z.to_nat i = Some x /\ h' = h.
Proof.
  unfold vec_at, fatal, ret. destruct (Z.ltb_spec i 0); [discriminate|].
  destruct (v !! Z.to_nat i); [|discriminate]. intros [= <- <-]. done.
Qed.

Lemma debug_assert_Done cond h u h' :
  debug_assert debug_build cond h = Done u h' ->
  (debug_build = true -> cond = true) /\ h' = h.
Proof.
  unfold debug_assert, fatal, ret. destruct debug_build, cond; try discriminate.
  all: intros [= <-]; done.
Qed.

Lemma release_assert_Done cond fmt args h u h' :
  release_assert cond fmt args h = Done u h' -> cond = true /\ h' = h.
Proof.
  unfold release_assert, fatal, ret. destruct cond; [|discriminate].
  intros [= <-]. done.
Qed.

Ltac prog_inv :=
  repeat match goal with
    | H : bind _ _ _ = Done _ _ |- _ =>
        let a := fresh "a" in let h := fresh "h" in let E := fresh "E" in
        apply bind_Done in H as (a & h & E & H)
    | H : ret _ _ = Done _ _ |- _ => apply ret_Done in H as [? ?]
    | H : extern _ _ _ = Done _ _ |- _ => apply extern_Done in H as [? ?]
    | H : scip_assert _ _ _ = Done _ _ |- _ =>
        let r := fresh "r" in
        apply scip_assert_Done in H as (r & ? & ? & ? & ?)
    | H : vec_at _ _ _ = Done _ _ |- _ => apply vec_at_Done in H as (? & ? & ?)
    | H : debug_assert _ _ _ = Done _ _ |- _ =>
        apply debug_assert_Done in H as [? ?]
    | H : release_assert _ _ _ _ = Done _ _ |- _ =>
        apply release_assert_Done in H as [? ?]
    end.

Lemma is_null_false p : is_null p = false <-> p <> nullptr.
Proof. unfold is_null. rewrite Z.eqb_neq. done. Qed.

Lemma is_null_true p : is_null p = true <-> p = nullptr.
Proof. unfold is_null. rewrite Z.eqb_eq. done. Qed.

Lemma calls_app h1 h2 : calls (h1 ++ h2) = calls h1 ++ calls h2.
Proof. unfold calls. apply fmap_app. Qed.

Lemma calls_cons c r h : calls ((c, r) :: h) = c :: calls h.
Proof. done. Qed.

Lemma present_handles_cons var rest :
  present_handles (var :: rest)
  = (if is_null var then [] else [var]) ++ present_handles rest.
Proof.
  unfold present_handles. rewrite filter_cons.
  destruct (is_null var) eqn:E.
  - apply is_null_true in E. destruct (decide (var <> nullptr)); done.
  - apply is_null_false in E. destruct (decide (var <> nullptr)); done.
Qed.

(** *** The release loops *)

Lemma release_cp_cons_Done scip pd h pd' h' :
  release_cp_cons engine scip pd h = Done pd' h' ->
  exists evs, h' = h ++ evs
    /\ calls evs = (if is_null (cp_cons_ pd) then []
                    else [SCIPreleaseCons scip (cp_cons_ pd)])
    /\ pd' = set_cp_cons nullptr pd.
Proof.
  unfold release_cp_cons. destruct (is_null (cp_cons_ pd)) eqn:E; intros H; prog_inv; subst.
  - exists []. rewrite app_nil_r. split; [done|]. split; [done|].
    apply is_null_true in E. destruct pd; simpl in *; subst; done.
  - eexists. split; [done|]. done.
Qed.

Lemma release_bool_vars_Done scip count : forall idx pd h pd' h',
  for_range (release_bool_var engine pos_rule scip) idx count pd h = Done pd' h' ->
  (idx + count)%nat = length (mip_bool_vars_ pd) ->
  exists evs vars', h' = h ++ evs
    /\ calls evs = (SCIPreleaseVar scip <$>
                      positive_from pos_rule (mip_neg_vars_idx_ pd) idx
                        (drop idx (mip_bool_vars_ pd)))
    /\ pd' = set_mip_bool_vars vars' pd.
Proof.
  induction count as [|count IH]; intros idx pd h pd' h' H Hlen; simpl in H.
  - prog_inv; subst. exists [], (mip_bool_vars_ pd).
    rewrite app_nil_r, drop_ge by lia. split; [done|]. split; [done|].
    destruct pd; done.
  - prog_inv. unfold release_bool_var in E.
    destruct (lookup_lt_is_Some_2 (mip_bool_vars_ pd) idx) as [var Hvar]; [lia|].
    rewrite (drop_S _ _ _ Hvar). simpl.
    unfold is_pos_var in E.
    destruct (pos_rule (mip_neg_vars_idx_ pd) (Z.of_nat idx)) eqn:Epos.
    + prog_inv; subst. rewrite Nat2Z.id in *.
      assert (a0 = var) as -> by congruence.
      apply IH in H as (evs & vars' & -> & Hc & ->);
        [|simpl; rewrite length_insert; lia].
      simpl in Hc. rewrite drop_insert_lt in Hc by lia.
      eexists (_ :: evs), vars'. rewrite <- app_assoc. split; [done|].
      split; [rewrite calls_cons, Hc; done|]. done.
    + prog_inv; subst.
      apply IH in H as (evs & vars' & -> & Hc & ->); [|lia].
      exists evs, vars'. done.
Qed.

Lemma release_int_vars_Done scip vars : forall h vars' h',
  release_int_vars engine scip vars h = Done vars' h' ->
  exists evs, h' = h ++ evs
    /\ calls evs = (SCIPreleaseVar scip <$> present_handles vars).
Proof.
  induction vars as [|var rest IH]; intros h vars' h' H; simpl in H.
  - prog_inv; subst. exists []. rewrite app_nil_r. done.
  - rewrite present_handles_cons. prog_inv. subst.
    apply IH in E0 as (evs & -> & Hc).
    destruct (is_null var); prog_inv; subst.
    + exists evs. done.
    + eexists (_ :: evs). rewrite <- app_assoc. split; [done|].
      rewrite calls_cons, Hc. done.
Qed.

Lemma release_handles_Done scip pd h pd' h' :
  release_handles engine pos_rule scip pd h = Done pd' h' ->
  exists evs, h' = h ++ evs /\ calls evs = release_calls pos_rule scip pd.
Proof.
  unfold release_handles. intros H. prog_inv; subst.
  apply release_cp_cons_Done in E as (e1 & -> & Hc1 & ->).
  apply release_bool_vars_Done in E0 as (e2 & vars' & -> & Hc2 & ->); [|done].
  apply release_int_vars_Done in E1 as (e3 & -> & Hc3).
  exists (e1 ++ e2 ++ e3). rewrite !app_assoc. split; [done|].
  rewrite <- !app_assoc, !calls_app, Hc1, Hc2, Hc3. done.
Qed.

Lemma elem_of_positive_from neg_idx vars : forall idx var,
  var ∈ positive_from pos_rule neg_idx idx vars <->
  exists k, vars !! k = Some var /\ pos_rule neg_idx (Z.of_nat (idx + k)) = true.
Proof.
  induction vars as [|v rest IH]; intros idx var; simpl.
  - split; [intros H; inversion H | intros (k & H & _); done].
  - rewrite elem_of_app, IH. split.
    + intros [H | (k & Hk & Hp)].
      * destruct (pos_rule neg_idx (Z.of_nat idx)) eqn:E; [|inversion H].
        apply list_elem_of_singleton in H as ->. exists 0%nat.
        rewrite Nat.add_0_r. done.
      * exists (S k). rewrite <- Nat.add_succ_comm. done.
    + intros ([|k] & Hk & Hp).
      * left. rewrite Nat.add_0_r in Hp. rewrite Hp.
        simpl in Hk. injection Hk as ->. apply list_elem_of_singleton. done.
      * right. exists k. rewrite Nat.add_succ_comm. done.
Qed.

(** *** The transformation loops *)

Lemma answered_nonnull h c r :
  answered h c r -> retcode r = SCIP_OKAY ->
  engine_nonnull engine -> captures c = true -> is_null (out r) = false.
Proof.
  unfold answered. intros -> Hok Hnn Hc. apply is_null_false, Hnn; done.
Qed.

Lemma transform_bool_var_Done scip idx pd h pd' h' :
  transform_bool_var engine debug_build pos_rule scip idx pd h = Done pd' h' ->
  exists c r, answered h c r /\ h' = h ++ [(c, r)]
    /\ retcode r = SCIP_OKAY
    /\ pd' = set_mip_bool_vars (<[idx := out r]> (mip_bool_vars_ pd)) pd
    /\ if is_pos_var pos_rule pd (Z.of_nat idx)
       then exists var, mip_bool_vars_ pd !! idx = Some var
                        /\ c = SCIPtransformVar scip var
       else exists pos_idx pos_var,
              mip_neg_vars_idx_ pd !! idx = Some pos_idx
              /\ 0 <= pos_idx
              /\ (debug_build = true -> pos_idx < Z.of_nat idx)
              /\ mip_bool_vars_ pd !! Z.to_nat pos_idx = Some pos_var
              /\ c = SCIPgetNegatedVar scip pos_var.
Proof.
  unfold transform_bool_var.
  destruct (is_pos_var pos_rule pd (Z.of_nat idx)); intros H; prog_inv; subst;
    rewrite ?Nat2Z.id in *.
  - match goal with Ha : answered _ ?c ?r |- _ => exists c, r end.
    repeat split; eauto.
  - match goal with Ha : answered _ ?c ?r |- _ => exists c, r end.
    repeat split; eauto.
    do 2 eexists. repeat split; eauto.
    intros Hd.
    match goal with
    | Hc : debug_build = true -> _ |- _ =>
        specialize (Hc Hd); apply andb_true_iff in Hc as [_ Hc];
        apply Z.ltb_lt in Hc; exact Hc
    end.
Qed.

Lemma acquired_app e1 e2 : acquired (e1 ++ e2) = acquired e1 ++ acquired e2.
Proof. apply bind_app. Qed.

Lemma released_app e1 e2 : released (e1 ++ e2) = released e1 ++ released e2.
Proof. unfold released. rewrite calls_app. apply bind_app. Qed.

Lemma acquired_cons e evs : acquired (e :: evs) = acquired_by e ++ acquired evs.
Proof. done. Qed.

Lemma released_cons c r evs : released ((c, r) :: evs) = release_of c ++ released evs.
Proof. done. Qed.

Lemma transform_bool_vars_acquired scip count : forall idx pd h pd' h',
  for_range (transform_bool_var engine debug_build pos_rule scip) idx count pd h
    = Done pd' h' ->
  (idx + count)%nat = length (mip_bool_vars_ pd) ->
  exists evs vars', h' = h ++ evs
    /\ pd' = set_mip_bool_vars vars' pd
    /\ length vars' = length (mip_bool_vars_ pd)
    /\ (forall j : nat, (j < idx)%nat -> vars' !! j = mip_bool_vars_ pd !! j)
    /\ acquired evs = (res_var <$> positive_from pos_rule (mip_neg_vars_idx_ pd)
                                    idx (drop idx vars'))
    /\ released evs = [].
Proof.
  induction count as [|count IH]; intros idx pd h pd' h' H Hlen; simpl in H.
  - prog_inv; subst. exists [], (mip_bool_vars_ pd).
    rewrite app_nil_r, drop_ge by lia. repeat split; auto. destruct pd; done.
  - prog_inv. apply transform_bool_var_Done in E as (c & r & _ & -> & Hok & -> & Hc).
    apply IH in H as (evs & vars' & -> & -> & Hl & Hlow & Ha & Hr);
      [|simpl; rewrite length_insert; lia].
    simpl in *. rewrite length_insert in Hl.
    assert (vars' !! idx = Some (out r)) as Hidx.
    { rewrite Hlow by lia. apply list_lookup_insert_eq. lia. }
    eexists (_ :: evs), vars'. rewrite <- app_assoc.
    split; [done|]. split; [done|]. split; [done|].
    split. { intros j Hj. rewrite Hlow by lia. apply list_lookup_insert_ne. lia. }
    rewrite (drop_S _ _ _ Hidx), acquired_cons, released_cons, Ha, Hr. simpl.
    unfold is_pos_var in Hc.
    destruct (pos_rule (mip_neg_vars_idx_ pd) (Z.of_nat idx)).
    + destruct Hc as (var & _ & ->). done.
    + destruct Hc as (p & pv & _ & _ & _ & _ & ->). done.
Qed.

Lemma transform_int_vars_Done scip vars : forall h vars' h',
  transform_int_vars engine scip vars h = Done vars' h' ->
  exists evs, h' = h ++ evs
    /\ length vars' = length vars
    /\ calls evs = (SCIPtransformVar scip <$> present_handles vars)
    /\ released evs = []
    /\ (engine_nonnull engine ->
        acquired evs = (res_var <$> present_handles vars'))
    /\ (forall (j : nat) var, vars !! j = Some var ->
          if is_null var then vars' !! j = Some nullptr
          else exists r, (SCIPtransformVar scip var, r) ∈ evs
                         /\ vars' !! j = Some (out r)).
Proof.
  induction vars as [|var rest IH]; intros h vars' h' H; simpl in H.
  - prog_inv; subst. exists []. rewrite app_nil_r. repeat split; auto.
    intros j var Hj. done.
  - prog_inv. subst. apply IH in E0 as (evs & -> & Hl & Hc & Hr & Ha & Hp).
    rewrite !present_handles_cons.
    destruct (is_null var) eqn:Enull; prog_inv; subst.
    + exists evs. rewrite Enull. simpl. repeat split; auto.
      intros [|j] v Hj; simpl in *.
      * injection Hj as <-. rewrite Enull. apply is_null_true in Enull. congruence.
      * apply Hp. done.
    + eexists (_ :: evs). rewrite <- app_assoc. split; [done|].
      split; [simpl; congruence|]. split; [rewrite calls_cons, Hc; done|].
      split; [rewrite released_cons, Hr; done|]. split.
      * intros Hnn. rewrite acquired_cons, (Ha Hnn). simpl.
        match goal with
        | Hr : answered _ _ ?r, Hok : retcode ?r = SCIP_OKAY |- _ =>
            rewrite (answered_nonnull _ _ _ Hr Hok Hnn eq_refl)
        end.
        done.
      * intros [|j] v Hj; simpl in *.
        -- injection Hj as <-. rewrite Enull. eexists. split; [left|done].
        -- specialize (Hp j v Hj). destruct (is_null v); [done|].
           destruct Hp as (r' & Hr' & Hv). exists r'. split; [right; done|done].
Qed.

Lemma transform_bool_vars_pointwise scip count : forall idx pd h pd' h',
  aliases_point_back pos_rule pd ->
  for_range (transform_bool_var engine debug_build pos_rule scip) idx count pd h
    = Done pd' h' ->
  (idx + count)%nat = length (mip_bool_vars_ pd) ->
  exists evs vars', h' = h ++ evs
    /\ pd' = set_mip_bool_vars vars' pd
    /\ length evs = count
    /\ (forall j : nat, (j < idx)%nat -> vars' !! j = mip_bool_vars_ pd !! j)
    /\ forall k : nat, (k < count)%nat ->
         exists c r, evs !! k = Some (c, r)
           /\ vars' !! (idx + k)%nat = Some (out r)
           /\ if is_pos_var pos_rule pd (Z.of_nat (idx + k))
              then exists var, mip_bool_vars_ pd !! (idx + k)%nat = Some var
                               /\ c = SCIPtransformVar scip var
              else exists pos_idx pos_var,
                     mip_neg_vars_idx_ pd !! (idx + k)%nat = Some pos_idx
                     /\ 0 <= pos_idx < Z.of_nat (idx + k)
                     /\ is_pos_var pos_rule pd pos_idx = true
                     /\ vars' !! Z.to_nat pos_idx = Some pos_var
                     /\ c = SCIPgetNegatedVar scip pos_var.
Proof.
  induction count as [|count IH]; intros idx pd h pd' h' Hwf H Hlen; simpl in H.
  - prog_inv; subst. exists [], (mip_bool_vars_ pd). rewrite app_nil_r.
    repeat split; auto; [destruct pd; done | lia].
  - prog_inv. apply transform_bool_var_Done in E as (c & r & _ & -> & Hok & -> & Hc).
    apply IH in H as (evs & vars' & -> & -> & Hl & Hlow & Hk);
      [| exact Hwf | simpl; rewrite length_insert; lia].
    simpl in *.
    assert (vars' !! idx = Some (out r)) as Hidx.
    { rewrite Hlow by lia. apply list_lookup_insert_eq. lia. }
    eexists (_ :: evs), vars'. rewrite <- app_assoc.
    split; [done|]. split; [done|]. split; [simpl; lia|].
    split. { intros j Hj. rewrite Hlow by lia. apply list_lookup_insert_ne. lia. }
    intros [|k] Hlt.
    + rewrite Nat.add_0_r. do 2 eexists. split; [done|]. split; [done|].
      destruct (is_pos_var pos_rule pd (Z.of_nat idx)) eqn:Epos; [done|].
      destruct Hc as (p & pv & Hneg & Hp0 & _ & Hpv & ->).
      destruct (Hwf idx p Epos Hneg) as [Hp Hpp].
      exists p, pv. repeat split; auto; try lia.
      rewrite Hlow by lia. rewrite list_lookup_insert_ne by lia. done.
    + destruct (Hk k) as (c' & r' & He & Hv & Hcase); [lia|].
      replace (idx + S k)%nat with (S (idx + k)) by lia.
      exists c', r'. split; [done|]. split; [done|].
      change (is_pos_var pos_rule
                (set_mip_bool_vars (<[idx:=out r]> (mip_bool_vars_ pd)) pd))
        with (is_pos_var pos_rule pd) in Hcase.
      destruct (is_pos_var pos_rule pd (Z.of_nat (S (idx + k)))); [|done].
      destruct Hcase as (var & Hvar & ->). exists var. split; [|done].
      rewrite list_lookup_insert_ne in Hvar by lia. done.
Qed.

Lemma transform_bool_vars_checked scip count : forall idx pd h pd' h',
  debug_build = true ->
  for_range (transform_bool_var engine debug_build pos_rule scip) idx count pd h
    = Done pd' h' ->
  forall k : nat, (k < count)%nat ->
    is_pos_var pos_rule pd (Z.of_nat (idx + k)) = false ->
    exists p, mip_neg_vars_idx_ pd !! (idx + k)%nat = Some p
              /\ 0 <= p < Z.of_nat (idx + k).
Proof.
  induction count as [|count IH]; intros idx pd h pd' h' Hd H k Hk Hneg;
    [lia|]. simpl in H.
  prog_inv. apply transform_bool_var_Done in E as (c & r & _ & -> & _ & -> & Hc).
  destruct k as [|k].
  - rewrite Nat.add_0_r in *. rewrite Hneg in Hc.
    destruct Hc as (p & pv & Hp & Hp0 & Hlt & _). exists p.
    specialize (Hlt Hd). split; [done|lia].
  - replace (idx + S k)%nat with (S idx + k)%nat in * by lia.
    apply (IH _ _ _ _ _ Hd H k); [lia|done].
Qed.

(** In a debug build [callback_probtrans] returns only if every aliased
    entry of the table refers to a smaller index. *)
Lemma debug_build_checks_alias_order scip sourcedata h block probdata h' :
  debug_build = true ->
  callback_probtrans engine debug_build pos_rule scip sourcedata h
    = Done (block, probdata) h' ->
  forall idx : nat, (idx < nb_bool_vars sourcedata)%nat ->
    is_pos_var pos_rule sourcedata (Z.of_nat idx) = false ->
    exists p, mip_neg_vars_idx_ sourcedata !! idx = Some p
              /\ 0 <= p < Z.of_nat idx.
Proof.
  intros Hd H idx Hidx Hneg. unfold callback_probtrans in H. prog_inv.
  assert (mip_bool_vars_ a0 = mip_bool_vars_ sourcedata
          /\ mip_neg_vars_idx_ a0 = mip_neg_vars_idx_ sourcedata) as [Hb Hn].
  { destruct (is_null (cp_cons_ sourcedata)); prog_inv; subst; done. }
  unfold nb_bool_vars in *. rewrite Hb in *.
  destruct (transform_bool_vars_checked _ _ _ _ _ _ _ Hd E1 idx Hidx)
    as (p & Hp & Hr).
  { unfold is_pos_var in *. rewrite Hn. done. }
  exists p. rewrite <- Hn. done.
Qed.

(** *** What a finished construction leaves *)

Variable Infinity : Float.

Lemma Model_ctor_Done method h m h' :
  Model_ctor engine Infinity method h = Done m h' ->
  exists evs mip false_var true_var zero_var cons r_false r_true r_zero,
    h' = h ++ evs
    /\ m = {| method_ := method; mip_ := mip;
              cp_ := {| cp_domains := [(0, 0)] |};
              probdata_ :=
                {| mip_bool_vars_ := [false_var; true_var];
                   mip_neg_vars_idx_ := [1; 0];
                   cp_bool_vars_ := [at_False; at_True];
                   bool_vars_name_ := ["false"%string; "true"%string];
                   mip_int_vars_ := [zero_var];
                   mip_indicator_vars_idx_ := [[]];
                   cp_int_vars_ := [0%nat];
                   int_vars_lb_ := [0]; int_vars_ub_ := [0];
                   int_vars_name_ := ["0"%string];
                   obj_var_idx_ := 0; cp_cons_ := cons |};
              status_ := Status.Unknown; obj_ := Infinity;
              obj_bound_ := (- Infinity)%float; time_limit_ := 0%float;
              start_time_ := 0; run_time_ := 0%float |}
    /\ (SCIPcreateVarBasic mip "false" 0%float 0%float 0%float
                           SCIP_VARTYPE_BINARY, r_false) ∈ evs
    /\ false_var = out r_false /\ false_var <> nullptr
    /\ (SCIPgetNegatedVar mip false_var, r_true) ∈ evs
    /\ true_var = out r_true
    /\ (SCIPcreateVarBasic mip "zero" 0%float 0%float 0%float
                           SCIP_VARTYPE_INTEGER, r_zero) ∈ evs
    /\ zero_var = out r_zero /\ zero_var <> nullptr
    /\ (cons <> nullptr -> method = Method.BC).
Proof.
  unfold Model_ctor, create_false, create_true, create_zero, create_cp_cons.
  intros H. do 3 (prog_inv; simpl in * ).
  repeat match goal with
         | Hn : negb (is_null _) = true |- _ =>
             apply negb_true_iff, is_null_false in Hn
         | Ha : answered _ _ _ |- _ => clear Ha
         | Hok : retcode _ = SCIP_OKAY |- _ => clear Hok
         end.
  subst. simpl in *.
  destruct method; simpl in *; prog_inv; subst; simpl in *;
    repeat match goal with
           | Ha : answered _ _ _ |- _ => clear Ha
           | Hok : retcode _ = SCIP_OKAY |- _ => clear Hok
           | Hl : Some _ = Some _ |- _ => injection Hl as <-
           end;
    rewrite <- ?app_assoc; simpl;
    (do 9 eexists; split; [reflexivity|]; split; [reflexivity|];
     repeat split; try done;
     try (apply list_elem_of_In; simpl; tauto)).
Qed.

(** *** The loops return when the engine accepts every call *)

Lemma scip_assert_accepted c h :
  engine_accepts engine ->
  exists r, scip_assert engine c h = Done (out r) (h ++ [(c, r)]).
Proof.
  intros Hok. exists (engine h c).
  unfold scip_assert, bind, extern, ret. rewrite (Hok h c). done.
Qed.

Lemma scip_assert_handle c h :
  engine_accepts engine -> engine_nonnull engine -> captures c = true ->
  exists r, scip_assert engine c h = Done (out r) (h ++ [(c, r)])
            /\ is_null (out r) = false.
Proof.
  intros Hok Hnn Hc. exists (engine h c). split.
  - unfold scip_assert, bind, extern, ret. rewrite (Hok h c). done.
  - apply is_null_false, Hnn; done.
Qed.

Lemma bind_run {A B} (c : M A) (k : A -> M B) h a h1 :
  c h = Done a h1 -> bind c k h = k a h1.
Proof. unfold bind. intros ->. done. Qed.

Lemma vec_at_in_range {A} (v : list A) (i : Int) x h :
  0 <= i -> v !! Z.to_nat i = Some x -> vec_at v i h = Done x h.
Proof.
  intros Hi Hx. unfold vec_at, ret.
  destruct (Z.ltb_spec i 0); [lia|]. rewrite Hx. done.
Qed.

Lemma vec_at_lookup {A} (v : list A) (i : nat) x h :
  v !! i = Some x -> vec_at v (Z.of_nat i) h = Done x h.
Proof.
  intros Hx. apply vec_at_in_range; [lia|]. rewrite Nat2Z.id. done.
Qed.

Lemma release_bool_vars_returns scip count : forall idx pd h,
  engine_accepts engine ->
  (idx + count)%nat = length (mip_bool_vars_ pd) ->
  exists pd' h',
    for_range (release_bool_var engine pos_rule scip) idx count pd h = Done pd' h'.
Proof.
  induction count as [|count IH]; intros idx pd h Hok Hlen; simpl.
  - unfold ret. eauto.
  - unfold bind at 1, release_bool_var.
    destruct (is_pos_var pos_rule pd (Z.of_nat idx)).
    + destruct (lookup_lt_is_Some_2 (mip_bool_vars_ pd) idx) as [var Hvar]; [lia|].
      unfold bind at 1. rewrite (vec_at_lookup _ _ _ _ Hvar).
      unfold bind at 1.
      destruct (scip_assert_accepted (SCIPreleaseVar scip var) h Hok) as (r & ->).
      unfold ret at 1. apply IH; [done|]. simpl. rewrite length_insert. lia.
    + unfold ret at 1. apply IH; [done|lia].
Qed.

Lemma release_int_vars_returns scip vars : forall h,
  engine_accepts engine ->
  exists vars' h', release_int_vars engine scip vars h = Done vars' h'.
Proof.
  induction vars as [|var rest IH]; intros h Hok; simpl.
  - unfold ret. eauto.
  - unfold bind at 1. destruct (is_null var).
    + unfold ret at 1. unfold bind at 1.
      destruct (IH h Hok) as (vars' & h' & ->). unfold ret. eauto.
    + unfold bind at 1.
      destruct (scip_assert_accepted (SCIPreleaseVar scip var) h Hok) as (r & ->).
      unfold ret at 1. unfold bind at 1.
      destruct (IH (h ++ [(SCIPreleaseVar scip var, r)]) Hok) as (vars' & h' & ->).
      unfold ret. eauto.
Qed.

Lemma release_handles_returns scip pd h :
  engine_accepts engine ->
  exists pd' h', release_handles engine pos_rule scip pd h = Done pd' h'.
Proof.
  intros Hok. unfold release_handles, release_cp_cons.
  assert (exists pd1 h1,
             (if is_null (cp_cons_ pd) then ret pd
              else scip_assert engine (SCIPreleaseCons scip (cp_cons_ pd)) ;;;
                   ret (set_cp_cons nullptr pd)) h = Done pd1 h1
             /\ mip_bool_vars_ pd1 = mip_bool_vars_ pd) as (pd1 & h1 & E & Hb).
  { destruct (is_null (cp_cons_ pd)).
    - unfold ret. eauto.
    - unfold bind at 1.
      destruct (scip_assert_accepted (SCIPreleaseCons scip (cp_cons_ pd)) h Hok)
        as (r & ->).
      unfold ret. eauto. }
  unfold bind at 1. rewrite E.
  destruct (release_bool_vars_returns scip (nb_bool_vars pd1) 0 pd1 h1 Hok)
    as (pd2 & h2 & E2); [done|].
  unfold bind at 1. rewrite E2. unfold bind at 1.
  destruct (release_int_vars_returns scip (mip_int_vars_ pd2) h2 Hok)
    as (vars' & h3 & ->).
  unfold ret. eauto.
Qed.

(** [callback_probdeltrans] returns when the engine accepts every call
    (and, in a debug build, [scip] is not null). *)
Lemma callback_probdeltrans_returns scip block probdata h :
  engine_accepts engine ->
  (debug_build = true -> scip <> nullptr) ->
  exists h', callback_probdeltrans engine debug_build pos_rule scip
               (block, probdata) h = Done tt h'.
Proof.
  intros Hok Hscip. unfold callback_probdeltrans, debug_assert.
  unfold bind at 1.
  assert ((if debug_build
           then if negb (is_null scip) then ret () else fatal debug_assert_failed
           else ret ()) h = Done tt h) as ->.
  { destruct debug_build; [|done].
    specialize (Hscip eq_refl). apply is_null_false in Hscip.
    rewrite Hscip. done. }
  unfold bind at 1.
  destruct (release_handles_returns scip probdata h Hok) as (pd' & h' & ->).
  unfold bind, extern, ret. eauto.
Qed.

(** X18: the destructor returns when the engine accepts every call,
    whatever the tables hold: no assertion and no read of a vector can
    stop it. *)
Lemma Model_dtor_returns m h :
  engine_accepts engine ->
  exists h', Model_dtor engine pos_rule m h = Done tt h'.
Proof.
  intros Hok. unfold Model_dtor. unfold bind at 1.
  destruct (release_handles_returns (mip_ m) (probdata_ m) h Hok)
    as (pd' & h' & ->).
  unfold bind at 1.
  destruct (scip_assert_accepted (SCIPfree (mip_ m)) h' Hok) as (r & ->).
  unfold bind, extern, ret. eauto.
Qed.

Lemma transform_bool_vars_returns scip count : forall idx pd h,
  engine_accepts engine ->
  aliases_point_back pos_rule pd ->
  length (mip_neg_vars_idx_ pd) = length (mip_bool_vars_ pd) ->
  (idx + count)%nat = length (mip_bool_vars_ pd) ->
  exists pd' h',
    for_range (transform_bool_var engine debug_build pos_rule scip) idx count pd h
      = Done pd' h'.
Proof.
  induction count as [|count IH]; intros idx pd h Hok Hwf Hneg Hlen; simpl.
  - unfold ret. eauto.
  - unfold bind at 1, transform_bool_var.
    destruct (is_pos_var pos_rule pd (Z.of_nat idx)) eqn:Epos.
    + destruct (lookup_lt_is_Some_2 (mip_bool_vars_ pd) idx) as [var Hvar]; [lia|].
      unfold bind at 1. rewrite (vec_at_lookup _ _ _ _ Hvar).
      unfold bind at 1.
      destruct (scip_assert_accepted (SCIPtransformVar scip var) h Hok) as (r & ->).
      unfold ret at 1. apply IH; try done; simpl; rewrite length_insert; lia.
    + destruct (lookup_lt_is_Some_2 (mip_neg_vars_idx_ pd) idx) as [p Hp]; [lia|].
      destruct (Hwf idx p Epos Hp) as [Hrange _].
      unfold bind at 1. rewrite (vec_at_lookup _ _ _ _ Hp).
      unfold bind at 1, debug_assert.
      assert ((p >=? 0) && (p <? Z.of_nat idx) = true) as ->.
      { apply andb_true_iff. split; [apply Z.geb_le|apply Z.ltb_lt]; lia. }
      assert ((if debug_build then ret () else ret ()) h = Done tt h) as ->
        by (destruct debug_build; done).
      destruct (lookup_lt_is_Some_2 (mip_bool_vars_ pd) (Z.to_nat p))
        as [pv Hpv]; [lia|].
      unfold bind at 1. rewrite (vec_at_in_range _ _ _ _ (proj1 Hrange) Hpv).
      unfold bind at 1.
      destruct (scip_assert_accepted (SCIPgetNegatedVar scip pv) h Hok) as (r & ->).
      unfold ret at 1. apply IH; try done; simpl; rewrite length_insert; lia.
Qed.

Lemma transform_int_vars_returns scip vars : forall h,
  engine_accepts engine ->
  exists vars' h', transform_int_vars engine scip vars h = Done vars' h'.
Proof.
  induction vars as [|var rest IH]; intros h Hok; simpl.
  - unfold ret. eauto.
  - unfold bind at 1. destruct (is_null var).
    + unfold ret at 1. unfold bind at 1.
      destruct (IH h Hok) as (vars' & h' & ->). unfold ret. eauto.
    + destruct (scip_assert_accepted (SCIPtransformVar scip var) h Hok) as (r & ->).
      unfold bind at 1.
      destruct (IH (h ++ [(SCIPtransformVar scip var, r)]) Hok) as (vars' & h' & ->).
      unfold ret. eauto.
Qed.

(** [callback_probtrans] returns when the engine accepts every call and
    the aliased entries of the table refer to smaller indices. *)
Lemma callback_probtrans_returns scip sourcedata h :
  engine_accepts engine ->
  aliases_point_back pos_rule sourcedata ->
  length (mip_neg_vars_idx_ sourcedata) = length (mip_bool_vars_ sourcedata) ->
  exists block probdata h',
    callback_probtrans engine debug_build pos_rule scip sourcedata h
      = Done (block, probdata) h'.
Proof.
  intros Hok Hwf Hlen. unfold callback_probtrans. unfold bind at 1.
  destruct (scip_assert_accepted (SCIPallocBlockMemory scip) h Hok) as (r & ->).
  set (h0 := h ++ [(SCIPallocBlockMemory scip, r)]).
  assert (exists pd1 h1,
             (if is_null (cp_cons_ sourcedata) then ret sourcedata
              else cons' <- scip_assert engine
                              (SCIPtransformCons scip (cp_cons_ sourcedata)) ;;
                   ret (set_cp_cons cons' sourcedata)) h0 = Done pd1 h1
             /\ mip_bool_vars_ pd1 = mip_bool_vars_ sourcedata
             /\ mip_neg_vars_idx_ pd1 = mip_neg_vars_idx_ sourcedata)
    as (pd1 & h1 & E & Hb & Hn).
  { destruct (is_null (cp_cons_ sourcedata)).
    - unfold ret. eauto.
    - unfold bind at 1.
      destruct (scip_assert_accepted
                  (SCIPtransformCons scip (cp_cons_ sourcedata)) h0 Hok)
        as (r' & ->).
      unfold ret. eauto. }
  unfold bind at 1. rewrite E.
  destruct (transform_bool_vars_returns scip (nb_bool_vars pd1) 0 pd1 h1 Hok)
    as (pd2 & h2 & E2).
  { unfold aliases_point_back, is_pos_var in *. rewrite Hn. done. }
  { rewrite Hb, Hn. done. }
  { done. }
  unfold bind at 1. rewrite E2. unfold bind at 1.
  destruct (transform_int_vars_returns scip (mip_int_vars_ pd2) h2 Hok)
    as (vars' & h3 & ->).
  unfold ret. eauto.
Qed.

(** X17: the constructor returns when the engine accepts every call and
    hands out no null handle: nothing else can stop a construction. *)
Lemma Model_ctor_returns method h :
  engine_accepts engine -> engine_nonnull engine ->
  exists m h', Model_ctor engine Infinity method h = Done m h'.
Proof.
  intros Hok Hnn.
  unfold Model_ctor, create_false, create_true, create_zero, create_cp_cons.
  unfold bind, ret, release_assert, fatal.
  repeat
    (match goal with
     | |- context [scip_assert engine (SCIPcreateVarBasic ?a ?b ?c ?d ?e ?f) ?h] =>
         let r := fresh "r" in
         let E := fresh "E" in
         let N := fresh "N" in
         destruct (scip_assert_handle (SCIPcreateVarBasic a b c d e f) h
                     Hok Hnn eq_refl) as (r & E & N);
         rewrite E, ?N; clear E
     | |- context [scip_assert engine ?c ?h] =>
         let r := fresh "r" in
         let E := fresh "E" in
         destruct (scip_assert_accepted c h Hok) as (r & E);
         rewrite E; clear E
     end; cbn beta iota zeta; simpl).
  destruct method; simpl;
    repeat
      (match goal with
       | |- context [scip_assert engine ?c ?h] =>
           let r := fresh "r" in
           let E := fresh "E" in
           destruct (scip_assert_accepted c h Hok) as (r & E);
           rewrite E; clear E
       end; cbn beta iota zeta; simpl);
    eexists _, _; reflexivity.
Qed.

(** *** The callbacks *)

(** C3: when [callback_probdeltrans] returns, the calls it made are, in
    this order: the release of the transformed constraint if there is
    one, the release of the handle at every positive index of the
    boolean table (in index order, and of no other boolean handle), the
    release of every integer handle that is present, and last the
    freeing of the block that held the duplicated [ProblemData]. *)
Theorem callback_probdeltrans_release_order scip block probdata h h' :
  callback_probdeltrans engine debug_build pos_rule scip (block, probdata) h
    = Done tt h' ->
  exists evs, h' = h ++ evs
    /\ calls evs =
         (if is_null (cp_cons_ probdata) then []
          else [SCIPreleaseCons scip (cp_cons_ probdata)])
         ++ (SCIPreleaseVar scip <$> positive_handles pos_rule probdata)
         ++ (SCIPreleaseVar scip <$> present_handles (mip_int_vars_ probdata))
         ++ [SCIPfreeBlockMemory scip block].
Proof.
  unfold callback_probdeltrans. intros H. prog_inv; subst.
  apply release_handles_Done in E0 as (evs & -> & Hc).
  eexists (evs ++ [_]). rewrite app_assoc. split; [done|].
  rewrite calls_app, Hc. unfold release_calls. rewrite <- !app_assoc. done.
Qed.

(** C6: when the destructor returns, the calls it made are, in this
    order: the release of the propagation constraint if there is one,
    the release of the handle at every positive index of the boolean
    table (and of no other boolean handle), the release of every integer
    handle that is present, and only then [SCIPfree] and the check for
    leaked memory.  This holds for every [Model], so also for one on
    which [minimize] was never called. *)
Theorem Model_dtor_release_order m h h' :
  Model_dtor engine pos_rule m h = Done tt h' ->
  exists evs, h' = h ++ evs
    /\ calls evs =
         (if is_null (cp_cons_ (probdata_ m)) then []
          else [SCIPreleaseCons (mip_ m) (cp_cons_ (probdata_ m))])
         ++ (SCIPreleaseVar (mip_ m) <$> positive_handles pos_rule (probdata_ m))
         ++ (SCIPreleaseVar (mip_ m) <$>
               present_handles (mip_int_vars_ (probdata_ m)))
         ++ [SCIPfree (mip_ m); BMScheckEmptyMemory].
Proof.
  unfold Model_dtor. intros H. prog_inv; subst.
  apply release_handles_Done in E as (evs & -> & Hc).
  eexists (evs ++ [_; _]). rewrite <- !app_assoc. split; [done|].
  rewrite calls_app, Hc. unfold release_calls. rewrite <- !app_assoc. done.
Qed.

Lemma release_of_vars scip (l : list ptr) :
  (SCIPreleaseVar scip <$> l) ≫= release_of = res_var <$> l.
Proof.
  induction l as [|v l IH]; [done|].
  rewrite !fmap_cons, bind_cons, IH. done.
Qed.

Lemma released_release_calls scip pd :
  release_calls pos_rule scip pd ≫= release_of
  = (if is_null (cp_cons_ pd) then [] else [res_cons (cp_cons_ pd)])
      ++ (res_var <$> positive_handles pos_rule pd)
      ++ (res_var <$> present_handles (mip_int_vars_ pd)).
Proof.
  unfold release_calls. rewrite !bind_app. f_equal; [|f_equal].
  - destruct (is_null (cp_cons_ pd)); done.
  - apply release_of_vars.
  - apply release_of_vars.
Qed.

Lemma acquired_release_calls scip pd evs :
  calls evs = release_calls pos_rule scip pd -> acquired evs = [].
Proof.
  unfold release_calls, acquired.
  generalize (positive_handles pos_rule pd) (present_handles (mip_int_vars_ pd)).
  intros l1 l2 Hc.
  assert (Forall (fun c => captures c = false) (calls evs)) as Hf.
  { rewrite Hc. rewrite !Forall_app. split; [|split].
    - destruct (is_null (cp_cons_ pd)); repeat constructor.
    - apply Forall_fmap, Forall_true. done.
    - apply Forall_fmap, Forall_true. done. }
  clear Hc. induction evs as [|[c r] evs IH]; [done|].
  rewrite calls_cons in Hf. apply Forall_cons in Hf as [Hc Hf].
  change ((c, r) :: evs ≫= acquired_by) with (acquired ((c, r) :: evs)).
  rewrite acquired_cons. unfold acquired. rewrite (IH Hf), app_nil_r.
  unfold acquired_by. simpl. destruct c; simpl in Hc; done.
Qed.

(** C7: [callback_probtrans] followed at once by [callback_probdeltrans]
    on what it built.  With an engine that hands out no null handle, the
    first callback acquires the block, the transformed constraint, the
    transformed positive boolean variables and the transformed present
    integer variables and releases nothing; the second releases exactly
    these, each once, the block last, and acquires nothing: nothing is
    outstanding. *)
Theorem probtrans_probdeltrans_neutral scip sourcedata h block probdata h1 h2 :
  engine_nonnull engine ->
  callback_probtrans engine debug_build pos_rule scip sourcedata h
    = Done (block, probdata) h1 ->
  callback_probdeltrans engine debug_build pos_rule scip (block, probdata) h1
    = Done tt h2 ->
  exists e1 e2 held,
    h1 = h ++ e1 /\ h2 = h1 ++ e2
    /\ held = (if is_null (cp_cons_ probdata) then []
               else [res_cons (cp_cons_ probdata)])
              ++ (res_var <$> positive_handles pos_rule probdata)
              ++ (res_var <$> present_handles (mip_int_vars_ probdata))
    /\ acquired e1 = res_block block :: held /\ released e1 = []
    /\ released e2 = held ++ [res_block block] /\ acquired e2 = []
    /\ acquired (e1 ++ e2) ≡ₚ released (e1 ++ e2).
Proof.
  intros Hnn Ht Hd.
  assert (exists e2, h2 = h1 ++ e2
            /\ released e2 = ((if is_null (cp_cons_ probdata) then []
                               else [res_cons (cp_cons_ probdata)])
                ++ (res_var <$> positive_handles pos_rule probdata)
                ++ (res_var <$> present_handles (mip_int_vars_ probdata)))
                ++ [res_block block]
            /\ acquired e2 = []) as (e2 & -> & Hr2 & Ha2).
  { unfold callback_probdeltrans in Hd. prog_inv; subst.
    apply release_handles_Done in E0 as (evs & -> & Hc).
    eexists (evs ++ [_]). rewrite app_assoc. split; [done|].
    rewrite released_app, acquired_app, (acquired_release_calls _ _ _ Hc).
    unfold released at 1. rewrite Hc, released_release_calls.
    rewrite <- !app_assoc. done. }
  assert (exists e1, h1 = h ++ e1
            /\ acquired e1 = res_block block ::
                 (if is_null (cp_cons_ probdata) then []
                  else [res_cons (cp_cons_ probdata)])
                 ++ (res_var <$> positive_handles pos_rule probdata)
                 ++ (res_var <$> present_handles (mip_int_vars_ probdata))
            /\ released e1 = []) as (e1 & -> & Ha1 & Hr1).
  { clear Hd Hr2 Ha2. unfold callback_probtrans in Ht. prog_inv.
    match goal with Hx : (_, _) = (_, _) |- _ => injection Hx as -> -> end.
    subst.
    apply transform_int_vars_Done in E2 as (e_int & -> & _ & _ & Hri & Hai & _).
    specialize (Hai Hnn).
    apply transform_bool_vars_acquired in E1
      as (e_bool & vars' & -> & -> & _ & _ & Hab & Hrb); [|done].
    rewrite drop_0 in Hab. simpl in *.
    destruct (is_null (cp_cons_ sourcedata)) eqn:Enull; prog_inv; subst.
    - eexists (_ :: e_bool ++ e_int).
      split; [rewrite <- !app_assoc; done|].
      rewrite acquired_cons, released_cons, acquired_app, released_app.
      rewrite Hab, Hai, Hrb, Hri. simpl. rewrite Enull. done.
    - eexists (_ :: _ :: e_bool ++ e_int).
      split; [rewrite <- !app_assoc; done|].
      rewrite !acquired_cons, !released_cons, acquired_app, released_app.
      rewrite Hab, Hai, Hrb, Hri. simpl.
      match goal with
      | Hr : answered _ (SCIPtransformCons _ _) ?r,
        Hok : retcode ?r = SCIP_OKAY |- _ =>
          rewrite (answered_nonnull _ _ _ Hr Hok Hnn eq_refl)
      end.
      done. }
  exists e1, e2. eexists. split; [done|]. split; [done|]. split; [reflexivity|].
  split; [done|]. split; [done|]. split; [done|]. split; [done|].
  rewrite acquired_app, released_app, Ha1, Ha2, Hr1, Hr2, app_nil_r. simpl.
  apply Permutation_cons_append.
Qed.

(** The duplicate that [callback_probtrans] builds differs from its
    source in handles only. *)
Lemma callback_probtrans_frame scip sourcedata h block probdata h' :
  callback_probtrans engine debug_build pos_rule scip sourcedata h
    = Done (block, probdata) h' ->
  mip_neg_vars_idx_ probdata = mip_neg_vars_idx_ sourcedata
  /\ cp_bool_vars_ probdata = cp_bool_vars_ sourcedata
  /\ bool_vars_name_ probdata = bool_vars_name_ sourcedata
  /\ cp_int_vars_ probdata = cp_int_vars_ sourcedata
  /\ int_vars_lb_ probdata = int_vars_lb_ sourcedata
  /\ int_vars_ub_ probdata = int_vars_ub_ sourcedata
  /\ int_vars_name_ probdata = int_vars_name_ sourcedata
  /\ obj_var_idx_ probdata = obj_var_idx_ sourcedata.
Proof.
  unfold callback_probtrans. intros H. prog_inv.
  match goal with Hx : (_, _) = (_, _) |- _ => injection Hx as -> -> end.
  apply transform_bool_vars_acquired in E1 as (e & vars' & _ & -> & _); [|done].
  destruct (is_null (cp_cons_ sourcedata)); prog_inv; subst; done.
Qed.

(** C2: when [callback_probtrans] returns on a table whose aliased
    entries refer to positive entries at smaller indices, its calls are
    the allocation, the transformation of the constraint if there is
    one, then one call per boolean index in increasing index order, then
    the calls for the integer table.  The call for a positive index
    transforms its handle and stores the result at that index.  The call
    for an aliased index [i] asks for the complement of the handle that
    the earlier call for index [neg_idx[i] < i] returned, and stores the
    result at [i].  An integer handle that is present is transformed,
    one that is absent stays absent and causes no call. *)
Theorem callback_probtrans_walk scip sourcedata h block probdata h' :
  aliases_point_back pos_rule sourcedata ->
  callback_probtrans engine debug_build pos_rule scip sourcedata h
    = Done (block, probdata) h' ->
  exists head bool_evs int_evs,
    h' = h ++ head ++ bool_evs ++ int_evs
    /\ calls head = SCIPallocBlockMemory scip ::
                      (if is_null (cp_cons_ sourcedata) then []
                       else [SCIPtransformCons scip (cp_cons_ sourcedata)])
    /\ length bool_evs = nb_bool_vars sourcedata
    /\ (forall (i : nat) var,
          mip_bool_vars_ sourcedata !! i = Some var ->
          if is_pos_var pos_rule sourcedata (Z.of_nat i)
          then exists r,
                 bool_evs !! i = Some (SCIPtransformVar scip var, r)
                 /\ mip_bool_vars_ probdata !! i = Some (out r)
          else exists (p : nat) var_p r_p r,
                 mip_neg_vars_idx_ sourcedata !! i = Some (Z.of_nat p)
                 /\ (p < i)%nat
                 /\ is_pos_var pos_rule sourcedata (Z.of_nat p) = true
                 /\ mip_bool_vars_ sourcedata !! p = Some var_p
                 /\ bool_evs !! p = Some (SCIPtransformVar scip var_p, r_p)
                 /\ bool_evs !! i = Some (SCIPgetNegatedVar scip (out r_p), r)
                 /\ mip_bool_vars_ probdata !! i = Some (out r))
    /\ calls int_evs =
         (SCIPtransformVar scip <$> present_handles (mip_int_vars_ sourcedata))
    /\ (forall (j : nat) var,
          mip_int_vars_ sourcedata !! j = Some var ->
          if is_null var then mip_int_vars_ probdata !! j = Some nullptr
          else exists r, (SCIPtransformVar scip var, r) ∈ int_evs
                         /\ mip_int_vars_ probdata !! j = Some (out r)).
Proof.
  intros Hwf H. unfold callback_probtrans in H. prog_inv.
  match goal with Hx : (_, _) = (_, _) |- _ => injection Hx as -> -> end.
  assert (mip_bool_vars_ a0 = mip_bool_vars_ sourcedata
          /\ mip_neg_vars_idx_ a0 = mip_neg_vars_idx_ sourcedata
          /\ mip_int_vars_ a0 = mip_int_vars_ sourcedata
          /\ exists head, h1 = h ++ head
               /\ calls head = SCIPallocBlockMemory scip ::
                     (if is_null (cp_cons_ sourcedata) then []
                      else [SCIPtransformCons scip (cp_cons_ sourcedata)]))
    as (Hb & Hn & Hi & head & -> & Hhead).
  { destruct (is_null (cp_cons_ sourcedata)); prog_inv; subst.
    - repeat split; try done. eexists [_]. done.
    - repeat split; try done. eexists [_; _]. rewrite <- app_assoc. done. }
  assert (aliases_point_back pos_rule a0) as Hwf0.
  { unfold aliases_point_back, is_pos_var in *. rewrite Hn. done. }
  apply (transform_bool_vars_pointwise _ _ _ _ _ _ _ Hwf0) in E1
    as (bool_evs & vars' & -> & -> & Hlen & _ & Hk); [|done].
  apply transform_int_vars_Done in E2 as (int_evs & -> & _ & Hci & _ & _ & Hpi).
  simpl in *. unfold nb_bool_vars in *. rewrite Hb in *. rewrite Hi in *.
  subst h'. exists head, bool_evs, int_evs. rewrite <- !app_assoc.
  split; [done|]. split; [done|]. split; [done|].
  split; [|split; done].
  assert (forall i : nat, is_pos_var pos_rule a0 (Z.of_nat i)
                          = is_pos_var pos_rule sourcedata (Z.of_nat i)) as Hpos.
  { intros i. unfold is_pos_var. rewrite Hn. done. }
  intros i var Hvar.
  assert (i < length (mip_bool_vars_ sourcedata))%nat as Hi'.
  { apply lookup_lt_is_Some. eauto. }
  destruct (Hk i) as (ci & ri & He & Hv & Hcase); [lia|]. simpl in *.
  rewrite Hpos, ?Hb, ?Hn in Hcase.
  destruct (is_pos_var pos_rule sourcedata (Z.of_nat i)) eqn:Epos.
  - destruct Hcase as (var' & Hvar' & ->).
    assert (var' = var) as -> by congruence. exists ri. done.
  - destruct Hcase as (p & tv & Hneg & Hp & Hpp & Htv & ->).
    assert (Z.to_nat p < length (mip_bool_vars_ sourcedata))%nat as Hp' by lia.
    destruct (Hk (Z.to_nat p)) as (cp & rp & Hep & Hvp & Hcasep); [lia|].
    simpl in *. rewrite Z2Nat.id in Hcasep by lia.
    unfold is_pos_var in Hcasep, Hpp. rewrite Hn, ?Hb in Hcasep.
    rewrite Hn in Hpp. rewrite Hpp in Hcasep.
    destruct Hcasep as (var_p & Hvar_p & ->).
    assert (tv = out rp) as -> by congruence.
    exists (Z.to_nat p), var_p, rp, ri. rewrite Z2Nat.id by lia.
    repeat split; try done; lia.
Qed.

(** *** Construction *)

(** C1, as amended: in a constructed [Model] every entry of the aliasing
    table is an index of the boolean table and differs from its own
    index.  Index 1, the negation, refers to the smaller index 0; index
    0, constant false, refers to the larger index 1 of its negation.
    [start_timer] and the duplicate made by [callback_probtrans] leave
    the table as it is. *)
Theorem neg_idx_after_construction method h m h' :
  Model_ctor engine Infinity method h = Done m h' ->
  length (mip_neg_vars_idx_ (probdata_ m)) = nb_bool_vars (probdata_ m)
  /\ length (bool_vars_name_ (probdata_ m)) = nb_bool_vars (probdata_ m)
  /\ (forall (i : nat) p,
        mip_neg_vars_idx_ (probdata_ m) !! i = Some p ->
        0 <= p < Z.of_nat (nb_bool_vars (probdata_ m))
        /\ p <> Z.of_nat i
        /\ ((i = 1%nat /\ p = 0) \/ (i = 0%nat /\ p = 1)))
  /\ (forall time_limit h1 m1 h2,
        start_timer engine m time_limit h1 = Done m1 h2 ->
        mip_neg_vars_idx_ (probdata_ m1) = mip_neg_vars_idx_ (probdata_ m))
  /\ (forall scip h1 block copy h2,
        callback_probtrans engine debug_build pos_rule scip (probdata_ m) h1
          = Done (block, copy) h2 ->
        mip_neg_vars_idx_ copy = mip_neg_vars_idx_ (probdata_ m)
        /\ nb_bool_vars copy = nb_bool_vars (probdata_ m)).
Proof.
  intros H.
  apply Model_ctor_Done in H
    as (evs & mip & vf & vt & vz & cons & rf & rt & rz & -> & -> & _).
  simpl. split; [done|]. split; [done|]. split; [|split].
  - intros [|[|i]] p Hp; simpl in Hp; [| |done]; injection Hp as <-;
      unfold nb_bool_vars; simpl; lia.
  - unfold start_timer. intros tl h1 m1 h2 Hs. prog_inv; subst. done.
  - intros scip h1 block copy h2 Hc. split.
    + apply callback_probtrans_frame in Hc as (Hn & _). done.
    + unfold callback_probtrans in Hc. prog_inv.
      match goal with Hx : (_, _) = (_, _) |- _ => injection Hx as -> -> end.
      apply transform_bool_vars_acquired in E1
        as (e & vars' & _ & -> & Hl & _); [|done].
      unfold nb_bool_vars. simpl in *. rewrite Hl.
      destruct (is_null cons); prog_inv; subst; done.
Qed.

(** C8: in a constructed [Model], boolean index 0 is constant false (a
    binary variable with bounds [0,0] named false, the atom [at_False]),
    boolean index 1 is constant true (SCIP's negation of the variable at
    index 0, aliased to index 0, the atom [at_True]), and integer index
    0 is the constant zero (bounds [0,0] in SCIP, in Geas and in the
    tables) and is the objective variable.  [start_timer] leaves these
    tables as they are, and the duplicate made by [callback_probtrans]
    has them too. *)
Theorem sentinels_after_construction method h m h' :
  Model_ctor engine Infinity method h = Done m h' ->
  sentinel_tables (probdata_ m)
  /\ obj_var_idx_ (probdata_ m) = 0
  /\ (exists evs false_var true_var zero_var r_false r_true r_zero cp_zero,
        h' = h ++ evs
        /\ mip_bool_vars_ (probdata_ m) !! 0%nat = Some false_var
        /\ (SCIPcreateVarBasic (mip_ m) "false" 0%float 0%float 0%float
                               SCIP_VARTYPE_BINARY, r_false) ∈ evs
        /\ false_var = out r_false
        /\ mip_bool_vars_ (probdata_ m) !! 1%nat = Some true_var
        /\ (SCIPgetNegatedVar (mip_ m) false_var, r_true) ∈ evs
        /\ true_var = out r_true
        /\ mip_int_vars_ (probdata_ m) !! 0%nat = Some zero_var
        /\ (SCIPcreateVarBasic (mip_ m) "zero" 0%float 0%float 0%float
                               SCIP_VARTYPE_INTEGER, r_zero) ∈ evs
        /\ zero_var = out r_zero
        /\ cp_int_vars_ (probdata_ m) !! 0%nat = Some cp_zero
        /\ cp_domains (cp_ m) !! cp_zero = Some (0, 0))
  /\ (forall time_limit h1 m1 h2,
        start_timer engine m time_limit h1 = Done m1 h2 ->
        probdata_ m1 = probdata_ m /\ cp_ m1 = cp_ m)
  /\ (forall scip h1 block copy h2,
        callback_probtrans engine debug_build pos_rule scip (probdata_ m) h1
          = Done (block, copy) h2 ->
        sentinel_tables copy /\ obj_var_idx_ copy = 0).
Proof.
  intros H.
  apply Model_ctor_Done in H
    as (evs & mip & vf & vt & vz & cons & rf & rt & rz & -> & -> & Hf & -> & _
        & Ht & -> & Hz & -> & _).
  simpl. split; [repeat split; done|]. split; [done|]. split; [|split].
  - exists evs, (out rf), (out rt), (out rz), rf, rt, rz, 0%nat.
    repeat split; done.
  - unfold start_timer. intros tl h1 m1 h2 Hs. prog_inv; subst. done.
  - intros scip h1 block copy h2 Hc.
    apply callback_probtrans_frame in Hc
      as (Hn & Hcb & Hbn & Hci & Hlb & Hub & Hin & Ho).
    unfold sentinel_tables. rewrite Hn, Hcb, Hbn, Hlb, Hub, Hin, Ho. simpl.
    repeat split; done.
Qed.

(** C9: in a constructed [Model] the two sentinel entries alias each
    other: [neg_idx[0] = 1] and [neg_idx[1] = 0].  So the entry of
    constant false differs from its own index and is larger, and
    [neg_idx[neg_idx[i]] = i] for [i] in {0, 1}. *)
Theorem sentinels_alias_each_other method h m h' :
  Model_ctor engine Infinity method h = Done m h' ->
  let neg_idx := mip_neg_vars_idx_ (probdata_ m) in
  neg_idx !! 0%nat = Some 1
  /\ neg_idx !! 1%nat = Some 0
  /\ (exists p, neg_idx !! 0%nat = Some p /\ p <> 0 /\ 0 < p)
  /\ (forall i : nat, i = 0%nat \/ i = 1%nat ->
        exists p, neg_idx !! i = Some p
                  /\ neg_idx !! Z.to_nat p = Some (Z.of_nat i)).
Proof.
  intros H.
  apply Model_ctor_Done in H
    as (evs & mip & vf & vt & vz & cons & rf & rt & rz & -> & -> & _).
  simpl. split; [done|]. split; [done|]. split.
  - exists 1. repeat split; done.
  - intros i [-> | ->]; eexists; split; done.
Qed.

(** C10: a constructed [Model] has status [Unknown], best objective
    value [Infinity], objective bound [-Infinity] and run time zero. *)
Theorem fresh_model_solution_state method h m h' :
  Model_ctor engine Infinity method h = Done m h' ->
  status_ m = Status.Unknown
  /\ obj_ m = Infinity
  /\ obj_bound_ m = (- Infinity)%float
  /\ run_time_ m = 0%float.
Proof.
  intros H.
  apply Model_ctor_Done in H
    as (evs & mip & vf & vt & vz & cons & rf & rt & rz & -> & -> & _).
  done.
Qed.

(** *** minimize and the timer *)

Lemma not_positive_when_le_zero (x : Float) :
  (x <=? 0)%float = true -> (0 <? x)%float = false.
Proof.
  rewrite leb_spec, ltb_spec.
  change (Prim2SF 0) with (S754_zero false).
  destruct (Prim2SF x) as [s|s| |s mx e]; simpl; try done;
    destruct s; simpl; done.
Qed.

(** C5: [minimize] hands over to the one strategy that the method
    selects, with the model, the arguments and the history it was given,
    and its outcome is that strategy's outcome; a method that is none of
    the four aborts with the diagnostic of [err] and calls no strategy. *)
Theorem minimize_dispatch bc lbbd mip cp m obj_var time_limit h :
  match strategy_of (method_ m) with
  | Some s =>
      minimize bc lbbd mip cp m obj_var time_limit h
      = run_strategy bc lbbd mip cp s m obj_var time_limit h
  | None =>
      exists raw, method_ m = Method.Other raw
        /\ minimize bc lbbd mip cp m obj_var time_limit h
           = Fatal (err_raised "Invalid method {}" [arg_int raw]) h
  end.
Proof.
  unfold minimize. destruct (method_ m); simpl; eauto.
Qed.

(** [start_timer] on a limit that is not greater than 0, and on one
    that is. *)
Lemma start_timer_Fatal m time_limit h :
  (0 <? time_limit)%float = false ->
  start_timer engine m time_limit h
  = Fatal (release_assert_failed "Time limit {} is invalid"
             [arg_float time_limit]) h.
Proof.
  intros Hn. unfold start_timer, bind, release_assert, fatal.
  rewrite Hn. done.
Qed.

Lemma start_timer_runs m time_limit h :
  (0 <? time_limit)%float = true ->
  start_timer engine m time_limit h
  = Done (set_timer time_limit (out (engine h clock)) m)
         (h ++ [(clock, engine h clock)]).
Proof.
  intros Hpos. unfold start_timer, bind, release_assert, ret, extern.
  rewrite Hpos. done.
Qed.

(** C4, as amended: when the method is one of the four, a call of
    [minimize] starts the CPU timer and validates the time limit, in
    the strategy it hands over to.  A limit that is not greater than 0
    (so one that is at most 0, and one that is not a number) aborts the
    call with the diagnostic of the time limit before any clock reading
    and before the solve.  A limit greater than 0 has the clock read
    once and the limit and the reading recorded as baseline in the
    model, the rest of the model untouched, and the solve of the
    selected strategy, and of no other, goes on from there.  When the
    method is none of the four, [minimize] aborts with the diagnostic
    of the method, whatever the time limit, and no clock is read. *)
Theorem minimize_starts_timer bc lbbd mip cp m obj_var time_limit h :
  match strategy_of (method_ m) with
  | Some s =>
      ((0 <? time_limit)%float = false ->
         minimize_timed engine bc lbbd mip cp m obj_var time_limit h
         = Fatal (release_assert_failed "Time limit {} is invalid"
                    [arg_float time_limit]) h)
      /\ ((time_limit <=? 0)%float = true ->
          minimize_timed engine bc lbbd mip cp m obj_var time_limit h
          = Fatal (release_assert_failed "Time limit {} is invalid"
                     [arg_float time_limit]) h)
      /\ ((0 <? time_limit)%float = true ->
          exists now m',
            answered h clock now
            /\ time_limit_ m' = time_limit /\ start_time_ m' = out now
            /\ probdata_ m' = probdata_ m /\ method_ m' = method_ m
            /\ mip_ m' = mip_ m /\ cp_ m' = cp_ m
            /\ status_ m' = status_ m /\ obj_ m' = obj_ m
            /\ obj_bound_ m' = obj_bound_ m /\ run_time_ m' = run_time_ m
            /\ minimize_timed engine bc lbbd mip cp m obj_var time_limit h
               = run_strategy bc lbbd mip cp s m' obj_var time_limit
                   (h ++ [(clock, now)]))
  | None =>
      exists raw, method_ m = Method.Other raw
        /\ minimize_timed engine bc lbbd mip cp m obj_var time_limit h
           = Fatal (err_raised "Invalid method {}" [arg_int raw]) h
  end.
Proof.
  assert (forall solve,
    (0 <? time_limit)%float = false ->
    timed_strategy engine solve m obj_var time_limit h
    = Fatal (release_assert_failed "Time limit {} is invalid"
               [arg_float time_limit]) h) as Hstop.
  { intros solve Hn. unfold timed_strategy, bind.
    rewrite (start_timer_Fatal _ _ _ Hn). done. }
  assert (forall solve,
    (0 <? time_limit)%float = true ->
    timed_strategy engine solve m obj_var time_limit h
    = solve (set_timer time_limit (out (engine h clock)) m) obj_var
        time_limit (h ++ [(clock, engine h clock)])) as Hgo.
  { intros solve Hpos. unfold timed_strategy, bind.
    rewrite (start_timer_runs _ _ _ Hpos). done. }
  unfold minimize_timed, minimize.
  destruct (method_ m) eqn:Em; simpl; [| | | |eauto];
    (split; [apply Hstop|];
     split; [intros Hle; apply Hstop, not_positive_when_le_zero, Hle|];
     intros Hpos;
     exists (engine h clock), (set_timer time_limit (out (engine h clock)) m);
     split; [reflexivity|]; rewrite (Hgo _ Hpos); simpl;
     rewrite Em; done).
Qed.

(** *** Runs that abort *)

Lemma bind_Fatal {A B} (c : M A) (k : A -> M B) h d h' :
  bind c k h = Fatal d h' ->
  c h = Fatal d h' \/ exists a h1, c h = Done a h1 /\ k a h1 = Fatal d h'.
Proof.
  unfold bind. destruct (c h) as [a h1|d1 h1]; [eauto|].
  intros [= -> ->]. left. done.
Qed.

Lemma scip_assert_Fatal c h d h' :
  scip_assert engine c h = Fatal d h' ->
  h' = h ++ [(c, engine h c)] /\ refused_last_call h' d.
Proof.
  unfold scip_assert, bind, extern, ret, fatal.
  destruct (retcode (engine h c)) eqn:E; [discriminate|].
  intros [= <- <-]. split; [done|].
  exists h, c, (engine h c). rewrite E. done.
Qed.

Lemma release_cp_cons_Fatal scip pd h d h' :
  release_cp_cons engine scip pd h = Fatal d h' ->
  refused_last_call h' d
  /\ exists evs, h' = h ++ evs
       /\ calls evs = (if is_null (cp_cons_ pd) then []
                       else [SCIPreleaseCons scip (cp_cons_ pd)]).
Proof.
  unfold release_cp_cons. destruct (is_null (cp_cons_ pd)); [discriminate|].
  intros H. apply bind_Fatal in H as [H|(a & h1 & _ & H)]; [|discriminate].
  apply scip_assert_Fatal in H as [-> Hr]. split; [done|].
  eexists. split; [done|]. done.
Qed.

Lemma release_bool_vars_Fatal scip count : forall idx pd h d h',
  for_range (release_bool_var engine pos_rule scip) idx count pd h = Fatal d h' ->
  (idx + count)%nat = length (mip_bool_vars_ pd) ->
  refused_last_call h' d
  /\ exists evs, h' = h ++ evs
       /\ calls evs `prefix_of`
            (SCIPreleaseVar scip <$>
               positive_from pos_rule (mip_neg_vars_idx_ pd) idx
                 (drop idx (mip_bool_vars_ pd))).
Proof.
  induction count as [|count IH]; intros idx pd h d h' H Hlen; simpl in H;
    [discriminate|].
  destruct (lookup_lt_is_Some_2 (mip_bool_vars_ pd) idx) as [var Hvar]; [lia|].
  rewrite (drop_S _ _ _ Hvar). simpl.
  apply bind_Fatal in H as [H|(pd1 & h1 & E & H)].
  - unfold release_bool_var, is_pos_var in H.
    destruct (pos_rule (mip_neg_vars_idx_ pd) (Z.of_nat idx)); [|discriminate].
    rewrite (bind_run _ _ _ _ _ (vec_at_lookup _ _ _ h Hvar)) in H.
    apply bind_Fatal in H as [H|(a & h1 & _ & H)]; [|discriminate].
    apply scip_assert_Fatal in H as [-> Hr]. split; [done|].
    eexists. split; [done|]. rewrite calls_cons. apply prefix_cons, prefix_nil.
  - unfold release_bool_var, is_pos_var in E.
    destruct (pos_rule (mip_neg_vars_idx_ pd) (Z.of_nat idx)).
    + prog_inv; subst.
      apply IH in H as (Hr & evs & -> & Hp); [|simpl; rewrite length_insert; lia].
      split; [done|]. simpl in Hp. rewrite drop_insert_lt in Hp by lia.
      rewrite Nat2Z.id in *.
      match goal with
      | Hv : mip_bool_vars_ pd !! idx = Some ?v |- _ =>
          assert (v = var) as -> by congruence
      end.
      eexists (_ :: evs). rewrite <- app_assoc. split; [done|].
      rewrite calls_cons. apply prefix_cons. done.
    + prog_inv; subst.
      apply IH in H as (Hr & evs & -> & Hp); [|lia].
      split; [done|]. exists evs. done.
Qed.

Lemma release_int_vars_Fatal scip vars : forall h d h',
  release_int_vars engine scip vars h = Fatal d h' ->
  refused_last_call h' d
  /\ exists evs, h' = h ++ evs
       /\ calls evs `prefix_of` (SCIPreleaseVar scip <$> present_handles vars).
Proof.
  induction vars as [|var rest IH]; intros h d h' H; simpl in H; [discriminate|].
  rewrite present_handles_cons.
  apply bind_Fatal in H as [H|(v' & h1 & E & H)].
  - destruct (is_null var); [discriminate|].
    apply bind_Fatal in H as [H|(a & h1 & _ & H)]; [|discriminate].
    apply scip_assert_Fatal in H as [-> Hr]. split; [done|].
    eexists. split; [done|]. rewrite calls_cons. apply prefix_cons, prefix_nil.
  - apply bind_Fatal in H as [H|(a & h2 & _ & H)]; [|discriminate].
    apply IH in H as (Hr & evs & -> & Hp). split; [done|].
    destruct (is_null var); prog_inv; subst.
    + exists evs. done.
    + eexists (_ :: evs). rewrite <- app_assoc. split; [done|].
      rewrite calls_cons. apply prefix_cons. done.
Qed.

Lemma release_handles_Fatal scip pd h d h' :
  release_handles engine pos_rule scip pd h = Fatal d h' ->
  refused_last_call h' d
  /\ exists evs, h' = h ++ evs
       /\ calls evs `prefix_of` release_calls pos_rule scip pd.
Proof.
  unfold release_handles, release_calls. intros H.
  apply bind_Fatal in H as [H|(pd1 & h1 & E1 & H)].
  { apply release_cp_cons_Fatal in H as (Hr & evs & -> & Hc). split; [done|].
    exists evs. split; [done|]. rewrite Hc. apply prefix_app_r. done. }
  apply release_cp_cons_Done in E1 as (e1 & -> & Hc1 & ->). rewrite <- Hc1.
  apply bind_Fatal in H as [H|(pd2 & h2 & E2 & H)].
  { apply release_bool_vars_Fatal in H as (Hr & evs & -> & Hp); [|done].
    split; [done|]. exists (e1 ++ evs). rewrite app_assoc. split; [done|].
    rewrite calls_app. apply prefix_app, prefix_app_r. done. }
  apply release_bool_vars_Done in E2 as (e2 & vars' & -> & Hc2 & ->); [|done].
  simpl in Hc2. rewrite drop_0 in Hc2. unfold positive_handles. rewrite <- Hc2.
  apply bind_Fatal in H as [H|(a & h3 & _ & H)]; [|discriminate].
  apply release_int_vars_Fatal in H as (Hr & evs & -> & Hp). split; [done|].
  exists (e1 ++ e2 ++ evs). rewrite !app_assoc. split; [done|].
  rewrite <- !app_assoc, !calls_app. do 2 apply prefix_app. done.
Qed.

(** X1: an aborted destructor.  The destructor aborts only because SCIP
    refused the call it made last, and the calls it made until then are
    the beginning of the sequence of a complete destruction, so the
    leak check is never reached. *)
Theorem Model_dtor_aborts_on_refusal m h d h' :
  Model_dtor engine pos_rule m h = Fatal d h' ->
  refused_last_call h' d
  /\ exists evs, h' = h ++ evs
       /\ calls evs `prefix_of`
            (release_calls pos_rule (mip_ m) (probdata_ m) ++ [SCIPfree (mip_ m)])
       /\ BMScheckEmptyMemory ∉ calls evs.
Proof.
  unfold Model_dtor. intros H.
  assert (BMScheckEmptyMemory
            ∉ release_calls pos_rule (mip_ m) (probdata_ m) ++ [SCIPfree (mip_ m)])
    as Hno.
  { unfold release_calls. rewrite !not_elem_of_app. repeat split.
    - destruct (is_null (cp_cons_ (probdata_ m)));
        [apply not_elem_of_nil|]. intros Hin%list_elem_of_singleton. done.
    - intros (v & Hv & _)%list_elem_of_fmap. done.
    - intros (v & Hv & _)%list_elem_of_fmap. done.
    - intros Hin%list_elem_of_singleton. done. }
  assert (forall evs,
             calls evs `prefix_of`
               (release_calls pos_rule (mip_ m) (probdata_ m) ++ [SCIPfree (mip_ m)])
             -> BMScheckEmptyMemory ∉ calls evs) as Hpre.
  { intros evs [k Hk] Hin. apply Hno. rewrite Hk. apply elem_of_app. auto. }
  apply bind_Fatal in H as [H|(pd1 & h1 & E1 & H)].
  { apply release_handles_Fatal in H as (Hr & evs & -> & Hp). split; [done|].
    exists evs. split; [done|].
    assert (calls evs `prefix_of`
              (release_calls pos_rule (mip_ m) (probdata_ m) ++ [SCIPfree (mip_ m)]))
      by (apply prefix_app_r; done).
    split; [done|]. apply Hpre. done. }
  apply release_handles_Done in E1 as (e1 & -> & Hc1).
  apply bind_Fatal in H as [H|(a & h2 & E2 & H)].
  { apply scip_assert_Fatal in H as [-> Hr]. split; [done|].
    eexists (e1 ++ [_]). rewrite app_assoc. split; [done|].
    split; [rewrite calls_app, Hc1; done|]. apply Hpre.
    rewrite calls_app, Hc1. done. }
  apply bind_Fatal in H as [H|(a' & h3 & _ & H)]; discriminate.
Qed.

(** X2: an aborted [callback_probdeltrans].  The callback aborts only
    because SCIP refused the call it made last or, in a debug build,
    because [scip] is null before any call; the calls it made until the
    abort are the beginning of the release sequence, and the block is
    not freed. *)
Theorem callback_probdeltrans_aborts_on_refusal scip block probdata h d h' :
  callback_probdeltrans engine debug_build pos_rule scip (block, probdata) h
    = Fatal d h' ->
  (refused_last_call h' d
   \/ (d = debug_assert_failed /\ h' = h /\ debug_build = true
       /\ scip = nullptr))
  /\ exists evs, h' = h ++ evs
       /\ calls evs `prefix_of` release_calls pos_rule scip probdata
       /\ SCIPfreeBlockMemory scip block ∉ calls evs.
Proof.
  unfold callback_probdeltrans. intros H.
  assert (SCIPfreeBlockMemory scip block ∉ release_calls pos_rule scip probdata)
    as Hno.
  { unfold release_calls. rewrite !not_elem_of_app. repeat split.
    - destruct (is_null (cp_cons_ probdata));
        [apply not_elem_of_nil|]. intros Hin%list_elem_of_singleton. done.
    - intros (v & Hv & _)%list_elem_of_fmap. done.
    - intros (v & Hv & _)%list_elem_of_fmap. done. }
  apply bind_Fatal in H as [H|(u & h1 & E1 & H)].
  { unfold debug_assert, fatal, ret in H.
    destruct debug_build eqn:Ed; [|discriminate].
    destruct (is_null scip) eqn:En; [|discriminate].
    injection H as <- <-. apply is_null_true in En.
    split; [right; done|]. exists []. rewrite app_nil_r.
    split; [done|]. split; [apply prefix_nil|apply not_elem_of_nil]. }
  apply debug_assert_Done in E1 as [_ ->].
  apply bind_Fatal in H as [H|(pd1 & h2 & E2 & H)].
  { apply release_handles_Fatal in H as (Hr & evs & -> & Hp).
    split; [left; done|]. exists evs. split; [done|]. split; [done|].
    destruct Hp as [k Hk]. intros Hin. apply Hno. rewrite Hk.
    apply elem_of_app. auto. }
  apply bind_Fatal in H as [H|(a' & h3 & _ & H)]; discriminate.
Qed.

(** *** The calls a computation can make *)

Lemma emits_ret {A} P (a : A) : emits P (ret a).
Proof. intros h. exists []. rewrite app_nil_r. split; [done|constructor]. Qed.

Lemma emits_fatal {A} P d : emits P (@fatal A d).
Proof. intros h. exists []. rewrite app_nil_r. split; [done|constructor]. Qed.

Lemma emits_bind {A B} P (c : M A) (k : A -> M B) :
  emits P c -> (forall a, emits P (k a)) -> emits P (bind c k).
Proof.
  intros Hc Hk h. unfold bind. destruct (Hc h) as (e1 & H1 & F1).
  destruct (c h) as [a h1|d h1]; simpl in H1; subst h1.
  - destruct (Hk a (h ++ e1)) as (e2 & H2 & F2). exists (e1 ++ e2).
    rewrite app_assoc. split; [done|]. rewrite calls_app. apply Forall_app. done.
  - exists e1. done.
Qed.

Lemma emits_scip_assert (P : call -> Prop) c : P c -> emits P (scip_assert engine c).
Proof.
  intros Hc h. exists [(c, engine h c)]. split.
  - unfold scip_assert, bind, extern, ret, fatal.
    destruct (retcode (engine h c)); done.
  - repeat constructor. done.
Qed.

Lemma emits_vec_at {A} P (v : list A) i : emits P (vec_at v i).
Proof.
  unfold vec_at. destruct (i <? 0); [apply emits_fatal|].
  destruct (v !! Z.to_nat i); [apply emits_ret|apply emits_fatal].
Qed.

Lemma emits_debug_assert P cond : emits P (debug_assert debug_build cond).
Proof.
  unfold debug_assert. destruct debug_build, cond;
    first [apply emits_ret|apply emits_fatal].
Qed.

Lemma emits_for_range {S} P (body : nat -> S -> M S) :
  (forall idx s, emits P (body idx s)) ->
  forall count idx s, emits P (for_range body idx count s).
Proof.
  intros Hb. induction count as [|count IH]; intros idx s; simpl.
  - apply emits_ret.
  - apply emits_bind; [apply Hb|]. intros s'. apply IH.
Qed.

Lemma emits_transform_int_vars scip vars :
  emits (transform_call scip) (transform_int_vars engine scip vars).
Proof.
  induction vars as [|var rest IH]; simpl; [apply emits_ret|].
  apply emits_bind.
  - destruct (is_null var); [apply emits_ret|].
    apply emits_scip_assert. unfold transform_call. eauto.
  - intros v'. apply emits_bind; [done|]. intros r. apply emits_ret.
Qed.

Lemma emits_callback_probtrans scip sourcedata :
  emits (transform_call scip)
        (callback_probtrans engine debug_build pos_rule scip sourcedata).
Proof.
  unfold callback_probtrans. apply emits_bind.
  { apply emits_scip_assert. unfold transform_call. eauto. }
  intros block. apply emits_bind.
  { destruct (is_null (cp_cons_ sourcedata)); [apply emits_ret|].
    apply emits_bind; [|intros c; apply emits_ret].
    apply emits_scip_assert. unfold transform_call. eauto. }
  intros pd1. apply emits_bind.
  { apply emits_for_range. intros idx pd. unfold transform_bool_var.
    destruct (is_pos_var pos_rule pd (Z.of_nat idx)).
    - apply emits_bind; [apply emits_vec_at|]. intros var.
      apply emits_bind; [|intros v; apply emits_ret].
      apply emits_scip_assert. unfold transform_call. eauto.
    - apply emits_bind; [apply emits_vec_at|]. intros p.
      apply emits_bind; [apply emits_debug_assert|]. intros _.
      apply emits_bind; [apply emits_vec_at|]. intros var.
      apply emits_bind; [|intros v; apply emits_ret].
      apply emits_scip_assert. unfold transform_call. eauto 6. }
  intros pd2. apply emits_bind; [apply emits_transform_int_vars|].
  intros ints. apply emits_ret.
Qed.

(** X3: whether it returns or aborts, [callback_probtrans] only
    allocates, transforms and asks for negations, all on the [scip] it
    was given: it releases and frees nothing, so what it acquired before
    an abort stays acquired. *)
Theorem callback_probtrans_releases_nothing scip sourcedata h :
  exists evs,
    history_of (callback_probtrans engine debug_build pos_rule scip sourcedata h)
      = h ++ evs
    /\ Forall (transform_call scip) (calls evs)
    /\ released evs = [].
Proof.
  destruct (emits_callback_probtrans scip sourcedata h) as (evs & Hh & Hf).
  exists evs. split; [done|]. split; [done|].
  unfold released. induction (calls evs) as [|c cs IH]; [done|].
  apply Forall_cons in Hf as [Hc Hf]. rewrite bind_cons, (IH Hf), app_nil_r.
  destruct Hc as [->|[[x ->]|[[x ->]|[x ->]]]]; done.
Qed.

Lemma transform_bool_vars_Fatal scip count : forall idx pd h d h',
  for_range (transform_bool_var engine debug_build pos_rule scip) idx count pd h
    = Fatal d h' ->
  aliases_point_back pos_rule pd ->
  length (mip_neg_vars_idx_ pd) = length (mip_bool_vars_ pd) ->
  (idx + count)%nat = length (mip_bool_vars_ pd) ->
  refused_last_call h' d.
Proof.
  induction count as [|count IH]; intros idx pd h d h' H Hwf Hneg Hlen;
    simpl in H; [discriminate|].
  apply bind_Fatal in H as [H|(pd1 & h1 & E & H)].
  - unfold transform_bool_var in H.
    destruct (is_pos_var pos_rule pd (Z.of_nat idx)) eqn:Epos.
    + destruct (lookup_lt_is_Some_2 (mip_bool_vars_ pd) idx) as [var Hvar]; [lia|].
      rewrite (bind_run _ _ _ _ _ (vec_at_lookup _ _ _ h Hvar)) in H.
      apply bind_Fatal in H as [H|(a & h1 & _ & H)]; [|discriminate].
      apply scip_assert_Fatal in H as [_ Hr]. done.
    + destruct (lookup_lt_is_Some_2 (mip_neg_vars_idx_ pd) idx) as [p Hp]; [lia|].
      destruct (Hwf idx p Epos Hp) as [Hrange _].
      rewrite (bind_run _ _ _ _ _ (vec_at_lookup _ _ _ h Hp)) in H.
      assert (debug_assert debug_build ((p >=? 0) && (p <? Z.of_nat idx)) h
              = Done tt h) as Hd.
      { unfold debug_assert, ret.
        assert ((p >=? 0) && (p <? Z.of_nat idx) = true) as ->.
        { apply andb_true_iff. split; [apply Z.geb_le|apply Z.ltb_lt]; lia. }
        destruct debug_build; done. }
      rewrite (bind_run _ _ _ _ _ Hd) in H.
      destruct (lookup_lt_is_Some_2 (mip_bool_vars_ pd) (Z.to_nat p))
        as [pv Hpv]; [lia|].
      rewrite (bind_run _ _ _ _ _ (vec_at_in_range _ _ _ h (proj1 Hrange) Hpv)) in H.
      apply bind_Fatal in H as [H|(a & h1 & _ & H)]; [|discriminate].
      apply scip_assert_Fatal in H as [_ Hr]. done.
  - apply transform_bool_var_Done in E as (c & r & _ & -> & _ & -> & _).
    apply IH in H; try done; simpl; rewrite length_insert; lia.
Qed.

Lemma transform_int_vars_Fatal scip vars : forall h d h',
  transform_int_vars engine scip vars h = Fatal d h' -> refused_last_call h' d.
Proof.
  induction vars as [|var rest IH]; intros h d h' H; simpl in H; [discriminate|].
  apply bind_Fatal in H as [H|(v' & h1 & E & H)].
  - destruct (is_null var); [discriminate|].
    apply scip_assert_Fatal in H as [_ Hr]. done.
  - apply bind_Fatal in H as [H|(a & h2 & _ & H)]; [|discriminate].
    apply IH in H. done.
Qed.

(** X4: on a table whose aliased entries refer to positive entries at
    smaller indices and whose aliasing table is as long as the boolean
    table, [callback_probtrans] aborts only because SCIP refused the
    call it made last: no assertion fails and no vector is read out of
    range. *)
Theorem callback_probtrans_aborts_on_refusal scip sourcedata h d h' :
  aliases_point_back pos_rule sourcedata ->
  length (mip_neg_vars_idx_ sourcedata) = length (mip_bool_vars_ sourcedata) ->
  callback_probtrans engine debug_build pos_rule scip sourcedata h = Fatal d h' ->
  refused_last_call h' d.
Proof.
  intros Hwf Hlen H. unfold callback_probtrans in H.
  apply bind_Fatal in H as [H|(block & h1 & _ & H)].
  { apply scip_assert_Fatal in H as [_ Hr]. done. }
  apply bind_Fatal in H as [H|(pd1 & h2 & E & H)].
  { destruct (is_null (cp_cons_ sourcedata)); [discriminate|].
    apply bind_Fatal in H as [H|(a & h3 & _ & H)]; [|discriminate].
    apply scip_assert_Fatal in H as [_ Hr]. done. }
  assert (mip_bool_vars_ pd1 = mip_bool_vars_ sourcedata
          /\ mip_neg_vars_idx_ pd1 = mip_neg_vars_idx_ sourcedata) as [Hb Hn].
  { destruct (is_null (cp_cons_ sourcedata)); prog_inv; subst; done. }
  apply bind_Fatal in H as [H|(pd2 & h3 & _ & H)].
  { apply transform_bool_vars_Fatal in H; try done.
    - unfold aliases_point_back, is_pos_var in *. rewrite Hn. done.
    - rewrite Hb, Hn. done. }
  apply bind_Fatal in H as [H|(a & h4 & _ & H)]; [|discriminate].
  apply transform_int_vars_Fatal in H. done.
Qed.

(** *** More on the transformation *)



(** X6: a debug build enforces the order of aliases.  If some aliased
    index of the table has an entry that is negative or not smaller than
    the index, [callback_probtrans] does not return: it aborts. *)
Theorem debug_build_rejects_forward_alias scip sourcedata h (idx : nat) p :
  debug_build = true ->
  is_pos_var pos_rule sourcedata (Z.of_nat idx) = false ->
  (idx < nb_bool_vars sourcedata)%nat ->
  mip_neg_vars_idx_ sourcedata !! idx = Some p ->
  ~ (0 <= p < Z.of_nat idx) ->
  exists d h',
    callback_probtrans engine debug_build pos_rule scip sourcedata h = Fatal d h'.
Proof.
  intros Hd Hneg Hidx Hp Hbad.
  destruct (callback_probtrans engine debug_build pos_rule scip sourcedata h)
    as [[block probdata] h'|d h'] eqn:E; [|eauto].
  destruct (debug_build_checks_alias_order _ _ _ _ _ _ Hd E idx Hidx Hneg)
    as (p' & Hp' & Hr).
  assert (p' = p) as -> by congruence. done.
Qed.

Lemma transform_bool_vars_forward scip count : forall idx pd h pd' h',
  for_range (transform_bool_var engine debug_build pos_rule scip) idx count pd h
    = Done pd' h' ->
  (idx + count)%nat = length (mip_bool_vars_ pd) ->
  exists evs, h' = h ++ evs
    /\ forall (k : nat) p, (k < count)%nat ->
         is_pos_var pos_rule pd (Z.of_nat (idx + k)) = false ->
         mip_neg_vars_idx_ pd !! (idx + k)%nat = Some p ->
         Z.of_nat (idx + k) <= p ->
         exists pos_var r,
           mip_bool_vars_ pd !! Z.to_nat p = Some pos_var
           /\ evs !! k = Some (SCIPgetNegatedVar scip pos_var, r)
           /\ mip_bool_vars_ pd' !! (idx + k)%nat = Some (out r).
Proof.
  induction count as [|count IH]; intros idx pd h pd' h' H Hlen; simpl in H.
  - prog_inv; subst. exists []. rewrite app_nil_r. split; [done|]. lia.
  - prog_inv. pose proof H as Hrest.
    apply transform_bool_var_Done in E as (c & r & _ & -> & _ & -> & Hc).
    apply transform_bool_vars_acquired in Hrest
      as (evs0 & vars' & _ & -> & _ & Hlow & _);
      [|simpl; rewrite length_insert; lia].
    apply IH in H as (evs & -> & Hk); [|simpl; rewrite length_insert; lia].
    simpl in *. eexists (_ :: evs). rewrite <- app_assoc. split; [done|].
    intros [|k] p Hlt Hneg Hp Hfwd.
    + rewrite Nat.add_0_r in *. rewrite Hneg in Hc.
      destruct Hc as (p' & pv & Hp' & _ & _ & Hpv & ->).
      assert (p' = p) as -> by congruence.
      exists pv, r. split; [done|]. split; [done|].
      rewrite Hlow by lia. apply list_lookup_insert_eq. lia.
    + replace (idx + S k)%nat with (S (idx + k)) in * by lia.
      destruct (Hk k p) as (pv & r' & Hpv & He & Hv); try done; try lia.
      exists pv, r'. split; [|done].
      rewrite list_lookup_insert_ne in Hpv by lia. done.
Qed.

(** X7: an alias that points forward, inside the table.  When
    [callback_probtrans] returns (so not in a debug build) and an
    aliased index has an entry that is not smaller than the index and
    is below the number of boolean variables, where the source holds
    the handle [pos_var], the handle stored at that index is the
    negation of [pos_var], a handle of the original problem that was
    not transformed yet. *)
Theorem forward_alias_negates_source_handle
    scip sourcedata h block probdata h' (idx : nat) p pos_var :
  callback_probtrans engine debug_build pos_rule scip sourcedata h
    = Done (block, probdata) h' ->
  is_pos_var pos_rule sourcedata (Z.of_nat idx) = false ->
  (idx < nb_bool_vars sourcedata)%nat ->
  mip_neg_vars_idx_ sourcedata !! idx = Some p ->
  Z.of_nat idx <= p < Z.of_nat (nb_bool_vars sourcedata) ->
  mip_bool_vars_ sourcedata !! Z.to_nat p = Some pos_var ->
  debug_build = false
  /\ exists r evs,
       h' = h ++ evs
       /\ (SCIPgetNegatedVar scip pos_var, r) ∈ evs
       /\ mip_bool_vars_ probdata !! idx = Some (out r).
Proof.
  intros H Hneg Hidx Hp [Hfwd Hin] Hsrc. split.
  { apply not_true_is_false. intros Hd.
    destruct (debug_build_checks_alias_order _ _ _ _ _ _ Hd H idx Hidx Hneg)
      as (p' & Hp' & Hr).
    assert (p' = p) as -> by congruence. lia. }
  unfold callback_probtrans in H. prog_inv.
  match goal with Hx : (_, _) = (_, _) |- _ => injection Hx as -> -> end.
  assert (mip_bool_vars_ a0 = mip_bool_vars_ sourcedata
          /\ mip_neg_vars_idx_ a0 = mip_neg_vars_idx_ sourcedata
          /\ exists e0, h1 = h ++ e0) as (Hb & Hn & e0 & ->).
  { destruct (is_null (cp_cons_ sourcedata)); prog_inv; subst.
    - repeat split; try done. eexists [_]. done.
    - repeat split; try done. eexists [_; _]. rewrite <- app_assoc. done. }
  pose proof E1 as E1'.
  apply transform_bool_vars_acquired in E1'
    as (e' & vars' & _ & -> & _); [|done].
  apply transform_bool_vars_forward in E1 as (e1 & -> & Hk); [|done].
  apply transform_int_vars_Done in E2 as (e2 & -> & _).
  unfold nb_bool_vars in *. rewrite <- Hb in Hidx.
  destruct (Hk idx p) as (pv & rn & Hpv & He & Hv); try done.
  { unfold is_pos_var in *. rewrite Hn. done. }
  { rewrite Hn. done. }
  rewrite Hb, Hsrc in Hpv. injection Hpv as ->.
  exists rn, (e0 ++ e1 ++ e2). subst h'. rewrite <- !app_assoc.
  split; [done|]. split; [|done].
  apply elem_of_app. right. apply elem_of_app. left.
  apply list_elem_of_lookup. eauto.
Qed.

(** *** More on construction *)

Lemma Model_ctor_trace method h m h' :
  Model_ctor engine Infinity method h = Done m h' ->
  exists evs false_var true_var zero_var,
    h' = h ++ evs
    /\ mip_bool_vars_ (probdata_ m) = [false_var; true_var]
    /\ mip_neg_vars_idx_ (probdata_ m) = [1; 0]
    /\ mip_int_vars_ (probdata_ m) = [zero_var]
    /\ false_var <> nullptr /\ zero_var <> nullptr
    /\ calls evs = ctor_calls method (mip_ m) false_var zero_var
                              (cp_cons_ (probdata_ m))
    /\ acquired evs = [res_var false_var; res_var zero_var]
                      ++ match method with
                         | Method.BC => [res_cons (cp_cons_ (probdata_ m))]
                         | _ => []
                         end
    /\ released evs = []
    /\ (method <> Method.BC -> cp_cons_ (probdata_ m) = nullptr)
    /\ (engine_nonnull engine -> method = Method.BC ->
        cp_cons_ (probdata_ m) <> nullptr).
Proof.
  unfold Model_ctor, create_false, create_true, create_zero, create_cp_cons.
  intros H. do 3 (prog_inv; simpl in * ).
  repeat match goal with
         | Hn : negb (is_null _) = true |- _ =>
             apply negb_true_iff, is_null_false in Hn
         end.
  subst. simpl in *.
  destruct method; simpl in *; prog_inv; subst; simpl in *;
    repeat match goal with
           | Hl : Some _ = Some _ |- _ => injection Hl as <-
           end;
    rewrite <- ?app_assoc; simpl;
    (eexists _, _, _, _; split; [reflexivity|];
     split; [reflexivity|]; split; [reflexivity|]; split; [reflexivity|];
     split; [assumption|]; split; [assumption|];
     split; [reflexivity|]; split; [reflexivity|]; split; [reflexivity|];
     split; [try done|]).
  all: try (intros _ Hm; discriminate Hm).
  intros Hnn _.
  match goal with
  | Hr : answered _ (SCIPcreateConsBasicGeas _ _) ?r,
    Hok : retcode ?r = SCIP_OKAY |- _ =>
      apply is_null_false, (answered_nonnull _ _ _ Hr Hok Hnn eq_refl)
  end.
Qed.

(** X8: the calls of a returning constructor.  SCIP is created and
    configured (one thread, no multi-aggregation, no restarts) before
    the problem exists; false is created before its negation is asked
    for; the Geas constraint handler and constraint are created in
    branch-and-cut mode only, and otherwise the constraint handle stays
    null; the two callbacks are installed last. *)
Theorem Model_ctor_call_sequence method h m h' :
  Model_ctor engine Infinity method h = Done m h' ->
  exists evs false_var zero_var,
    h' = h ++ evs
    /\ mip_bool_vars_ (probdata_ m) !! 0%nat = Some false_var
    /\ mip_int_vars_ (probdata_ m) !! 0%nat = Some zero_var
    /\ calls evs = ctor_calls method (mip_ m) false_var zero_var
                              (cp_cons_ (probdata_ m))
    /\ (method <> Method.BC -> cp_cons_ (probdata_ m) = nullptr)
    /\ (engine_nonnull engine -> method = Method.BC ->
        cp_cons_ (probdata_ m) <> nullptr).
Proof.
  intros H. apply Model_ctor_trace in H
    as (evs & vf & vt & vz & -> & Hb & _ & Hi & _ & _ & Hc & _ & _ & Hm & Hn).
  exists evs, vf, vz. rewrite Hb, Hi. done.
Qed.

(** X9: the tables of a constructed [Model] are aligned, two boolean and
    one integer entry long, and the handles of false and of zero are not
    null, whatever the engine hands out (a null handle with [SCIP_OKAY]
    makes the constructor abort). *)
Theorem Model_ctor_tables method h m h' :
  Model_ctor engine Infinity method h = Done m h' ->
  tables_aligned (probdata_ m)
  /\ nb_bool_vars (probdata_ m) = 2%nat
  /\ length (mip_int_vars_ (probdata_ m)) = 1%nat
  /\ (exists false_var, mip_bool_vars_ (probdata_ m) !! 0%nat = Some false_var
                         /\ false_var <> nullptr)
  /\ (exists zero_var, mip_int_vars_ (probdata_ m) !! 0%nat = Some zero_var
                        /\ zero_var <> nullptr).
Proof.
  intros H.
  apply Model_ctor_Done in H
    as (evs & mip & vf & vt & vz & cons & rf & rt & rz & -> & -> & _ & _ & Hf
        & _ & _ & _ & _ & Hz & _).
  unfold tables_aligned, nb_bool_vars. simpl. repeat split; eauto.
Qed.

Ltac abort_cases H :=
  repeat (apply bind_Fatal in H as [H|(? & ? & ? & H)];
          [ first [ discriminate H
                  | unfold ret in H; discriminate H
                  | simpl in H; unfold ret in H; discriminate H
                  | apply scip_assert_Fatal in H as [_ H]; left; exact H
                  | idtac ]
          | ]).

Lemma release_assert_nonnull_Fatal c h0 a h1 fmt d h' :
  scip_assert engine c h0 = Done a h1 ->
  release_assert (negb (is_null a)) fmt [] h1 = Fatal d h' ->
  exists r, h' = h0 ++ [(c, r)] /\ retcode r = SCIP_OKAY /\ out r = nullptr
            /\ d = release_assert_failed fmt [].
Proof.
  intros E H. apply scip_assert_Done in E as (r & _ & Hok & -> & ->).
  unfold release_assert, fatal, ret in H.
  destruct (is_null (out r)) eqn:En; [|discriminate].
  injection H as <- <-. apply is_null_true in En. eauto.
Qed.

(** X10: an aborted constructor.  The constructor aborts only because
    SCIP refused the call it made last, or because the creation of the
    variable false or zero, its last call, stored a null handle; no
    vector is read out of range. *)
Theorem Model_ctor_aborts method h d h' :
  Model_ctor engine Infinity method h = Fatal d h' ->
  refused_last_call h' d \/ null_variable_created h' d.
Proof.
  unfold Model_ctor, create_false, create_true, create_zero, create_cp_cons.
  intros H. abort_cases H.
  all: first
    [ right;
      match goal with
      | E : scip_assert _ _ _ = Done ?a ?h1,
        F : release_assert (negb (is_null ?a)) _ _ ?h1 = Fatal _ _ |- _ =>
          destruct (release_assert_nonnull_Fatal _ _ _ _ _ _ _ E F)
            as (r & -> & Hok & Hn & ->)
      end;
      unfold null_variable_created; eexists _, _, _, _, _, _, _, _, _;
      (split; [reflexivity|]); (split; [exact Hok|]);
      (split; [exact Hn|reflexivity])
    | match goal with
      | F : vec_at _ _ _ = Fatal _ _ |- _ =>
          do 3 (prog_inv; simpl in * ); subst; simpl in F;
          unfold vec_at in F; simpl in F; discriminate F
      end
    | match goal with
      | F : match method_ ?x with _ => _ end _ = Fatal _ _ |- _ =>
          destruct (method_ x); abort_cases F; unfold ret in F; discriminate F
      end
    | unfold ret in H; discriminate H ].
Qed.

Lemma Model_dtor_ledger m h h' :
  Model_dtor engine pos_rule m h = Done tt h' ->
  exists evs, h' = h ++ evs
    /\ acquired evs = []
    /\ released evs =
         (if is_null (cp_cons_ (probdata_ m)) then []
          else [res_cons (cp_cons_ (probdata_ m))])
         ++ (res_var <$> positive_handles pos_rule (probdata_ m))
         ++ (res_var <$> present_handles (mip_int_vars_ (probdata_ m))).
Proof.
  unfold Model_dtor. intros H. prog_inv; subst.
  apply release_handles_Done in E as (evs & -> & Hc).
  eexists (evs ++ [_; _]). rewrite <- !app_assoc. split; [done|].
  rewrite acquired_app, released_app, (acquired_release_calls _ _ _ Hc).
  unfold released at 1. rewrite Hc, released_release_calls.
  split; [done|]. rewrite <- !app_assoc.
  unfold released. simpl. rewrite !app_nil_r. done.
Qed.

Lemma ctor_then_dtor method h m h1 h3 h4 :
  engine_nonnull engine ->
  Model_ctor engine Infinity method h = Done m h1 ->
  Model_dtor engine pos_rule m h3 = Done tt h4 ->
  exists e1 e2 false_var true_var zero_var,
    h1 = h ++ e1 /\ h4 = h3 ++ e2
    /\ mip_bool_vars_ (probdata_ m) = [false_var; true_var]
    /\ mip_neg_vars_idx_ (probdata_ m) = [1; 0]
    /\ mip_int_vars_ (probdata_ m) = [zero_var]
    /\ acquired e1 = [res_var false_var; res_var zero_var]
                     ++ match method with
                        | Method.BC => [res_cons (cp_cons_ (probdata_ m))]
                        | _ => []
                        end
    /\ released e1 = [] /\ acquired e2 = []
    /\ released e2 =
         match method with
         | Method.BC => [res_cons (cp_cons_ (probdata_ m))]
         | _ => []
         end
         ++ (if pos_rule [1; 0] 0 then [res_var false_var] else [])
         ++ (if pos_rule [1; 0] 1 then [res_var true_var] else [])
         ++ [res_var zero_var].
Proof.
  intros Hnn Hc Hd.
  apply Model_ctor_trace in Hc
    as (e1 & vf & vt & vz & -> & Hb & Hn & Hi & Hvf & Hvz & _ & Ha & Hr & Hm
        & Hbc).
  apply Model_dtor_ledger in Hd as (e2 & -> & Ha2 & Hr2).
  exists e1, e2, vf, vt, vz.
  split; [done|]. split; [done|]. split; [done|]. split; [done|].
  split; [done|]. split; [done|]. split; [done|]. split; [done|].
  rewrite Hr2. unfold positive_handles. rewrite Hb, Hn, Hi.
  rewrite present_handles_cons. apply is_null_false in Hvz. rewrite Hvz.
  simpl.
  assert ((if is_null (cp_cons_ (probdata_ m)) then []
           else [res_cons (cp_cons_ (probdata_ m))])
          = match method with
            | Method.BC => [res_cons (cp_cons_ (probdata_ m))]
            | _ => []
            end) as ->.
  { destruct method;
      try (rewrite Hm by done; done).
    specialize (Hbc Hnn eq_refl). apply is_null_false in Hbc.
    rewrite Hbc. done. }
  f_equal. change (Z.of_nat 0) with 0. change (Z.of_nat 1) with 1.
  destruct (pos_rule [1; 0] 0), (pos_rule [1; 0] 1); done.
Qed.

(** X11: a [Model] that is constructed and then destroyed.  With an
    engine that hands out no null handle, the constructor acquires the
    variables false and zero and, in branch-and-cut mode, the constraint;
    the destructor releases the constraint, the handle of false if
    [is_pos_var] calls index 0 positive, the handle of true if it calls
    index 1 positive, and zero.  So nothing is outstanding when index 0
    counts as positive and index 1 does not. *)
Theorem ctor_dtor_ledger method h m h1 h2 :
  engine_nonnull engine ->
  Model_ctor engine Infinity method h = Done m h1 ->
  Model_dtor engine pos_rule m h1 = Done tt h2 ->
  exists e1 e2 false_var true_var zero_var cons_part,
    h1 = h ++ e1 /\ h2 = h1 ++ e2
    /\ mip_bool_vars_ (probdata_ m) = [false_var; true_var]
    /\ mip_int_vars_ (probdata_ m) = [zero_var]
    /\ cons_part = match method with
                   | Method.BC => [res_cons (cp_cons_ (probdata_ m))]
                   | _ => []
                   end
    /\ acquired e1 = [res_var false_var; res_var zero_var] ++ cons_part
    /\ released e1 = [] /\ acquired e2 = []
    /\ released e2 =
         cons_part
         ++ (if pos_rule [1; 0] 0 then [res_var false_var] else [])
         ++ (if pos_rule [1; 0] 1 then [res_var true_var] else [])
         ++ [res_var zero_var]
    /\ (pos_rule [1; 0] 0 = true -> pos_rule [1; 0] 1 = false ->
        acquired (e1 ++ e2) ≡ₚ released (e1 ++ e2)).
Proof.
  intros Hnn Hc Hd.
  destruct (ctor_then_dtor _ _ _ _ _ _ Hnn Hc Hd)
    as (e1 & e2 & vf & vt & vz & -> & -> & Hb & _ & Hi & Ha & Hr & Ha2 & Hr2).
  exists e1, e2, vf, vt, vz. eexists.
  split; [done|]. split; [done|]. split; [done|]. split; [done|].
  split; [reflexivity|]. split; [done|]. split; [done|]. split; [done|].
  split; [done|].
  intros H0 H1. rewrite acquired_app, released_app, Ha, Ha2, Hr, Hr2, H0, H1.
  rewrite app_nil_r. simpl.
  destruct method; simpl; try done.
  exact (Permutation_app_comm [res_var vf; res_var vz] [res_cons _]).
Qed.

(** X12: a constructed [Model] can be transformed.  If [is_pos_var]
    calls index 0 of the table [1; 0] positive, [callback_probtrans] on
    the data of a constructed [Model] returns whenever the engine
    accepts every call. *)
Theorem constructed_model_transforms method h m h1 scip h2 :
  engine_accepts engine ->
  pos_rule [1; 0] 0 = true ->
  Model_ctor engine Infinity method h = Done m h1 ->
  exists block probdata h3,
    callback_probtrans engine debug_build pos_rule scip (probdata_ m) h2
      = Done (block, probdata) h3.
Proof.
  intros Hok H0 Hc.
  apply Model_ctor_trace in Hc as (e1 & vf & vt & vz & _ & Hb & Hn & _).
  apply callback_probtrans_returns; [done| |rewrite Hb, Hn; done].
  intros idx p Hpos Hp. unfold is_pos_var in *. rewrite Hn in *.
  destruct idx as [|[|idx]]; simpl in Hp; [| |done].
  - change (Z.of_nat 0) with 0 in Hpos. congruence.
  - injection Hp as <-. split; [lia|done].
Qed.

(** X13: a constructed [Model] needs index 0 to count as positive.  If
    [is_pos_var] calls index 0 of the table [1; 0] aliased, then in a
    debug build [callback_probtrans] on the data of a constructed
    [Model] never returns: the entry of index 0 is 1, which is not
    smaller than 0. *)
Theorem constructed_model_needs_positive_false method h m h1 scip h2 :
  debug_build = true ->
  pos_rule [1; 0] 0 = false ->
  Model_ctor engine Infinity method h = Done m h1 ->
  exists d h3,
    callback_probtrans engine debug_build pos_rule scip (probdata_ m) h2
      = Fatal d h3.
Proof.
  intros Hd H0 Hc.
  apply Model_ctor_trace in Hc as (e1 & vf & vt & vz & _ & Hb & Hn & _).
  destruct (callback_probtrans engine debug_build pos_rule scip (probdata_ m) h2)
    as [[block probdata] h3|d h3] eqn:E; [|eauto].
  destruct (debug_build_checks_alias_order _ _ _ _ _ _ Hd E 0%nat)
    as (p & Hp & Hr).
  - unfold nb_bool_vars. rewrite Hb. simpl. lia.
  - unfold is_pos_var. rewrite Hn. done.
  - lia.
Qed.

Lemma callback_probtrans_ledger scip sourcedata h block probdata h1 :
  engine_nonnull engine ->
  callback_probtrans engine debug_build pos_rule scip sourcedata h
    = Done (block, probdata) h1 ->
  exists e1, h1 = h ++ e1
    /\ acquired e1 = res_block block ::
         (if is_null (cp_cons_ probdata) then []
          else [res_cons (cp_cons_ probdata)])
         ++ (res_var <$> positive_handles pos_rule probdata)
         ++ (res_var <$> present_handles (mip_int_vars_ probdata))
    /\ released e1 = [].
Proof.
  intros Hnn Ht. unfold callback_probtrans in Ht. prog_inv.
  match goal with Hx : (_, _) = (_, _) |- _ => injection Hx as -> -> end.
  subst.
  apply transform_int_vars_Done in E2 as (e_int & -> & _ & _ & Hri & Hai & _).
  specialize (Hai Hnn).
  apply transform_bool_vars_acquired in E1
    as (e_bool & vars' & -> & -> & _ & _ & Hab & Hrb); [|done].
  rewrite drop_0 in Hab. simpl in *.
  destruct (is_null (cp_cons_ sourcedata)) eqn:Enull; prog_inv; subst.
  - eexists (_ :: e_bool ++ e_int).
    split; [rewrite <- !app_assoc; done|].
    rewrite acquired_cons, released_cons, acquired_app, released_app.
    rewrite Hab, Hai, Hrb, Hri. simpl. rewrite Enull. done.
  - eexists (_ :: _ :: e_bool ++ e_int).
    split; [rewrite <- !app_assoc; done|].
    rewrite !acquired_cons, !released_cons, acquired_app, released_app.
    rewrite Hab, Hai, Hrb, Hri. simpl.
    match goal with
    | Hr : answered _ (SCIPtransformCons _ _) ?r,
      Hok : retcode ?r = SCIP_OKAY |- _ =>
        rewrite (answered_nonnull _ _ _ Hr Hok Hnn eq_refl)
    end.
    done.
Qed.

Lemma callback_probdeltrans_ledger scip block probdata h h' :
  callback_probdeltrans engine debug_build pos_rule scip (block, probdata) h
    = Done tt h' ->
  exists e2, h' = h ++ e2
    /\ acquired e2 = []
    /\ released e2 =
         ((if is_null (cp_cons_ probdata) then []
           else [res_cons (cp_cons_ probdata)])
          ++ (res_var <$> positive_handles pos_rule probdata)
          ++ (res_var <$> present_handles (mip_int_vars_ probdata)))
         ++ [res_block block].
Proof.
  unfold callback_probdeltrans. intros Hd. prog_inv; subst.
  apply release_handles_Done in E0 as (evs & -> & Hc).
  eexists (evs ++ [_]). rewrite app_assoc. split; [done|].
  rewrite released_app, acquired_app, (acquired_release_calls _ _ _ Hc).
  unfold released at 1. rewrite Hc, released_release_calls.
  rewrite <- !app_assoc. done.
Qed.

(** X14: a whole life.  A [Model] is constructed, its data is
    transformed, the transformed data is released again and the [Model]
    is destroyed.  With an engine that hands out no null handle, and
    with index 0 counting as positive and index 1 as aliased, every
    handle and block acquired on the way is released exactly once. *)
Theorem whole_life_is_neutral method scip h m h1 block probdata h2 h3 h4 :
  engine_nonnull engine ->
  pos_rule [1; 0] 0 = true -> pos_rule [1; 0] 1 = false ->
  Model_ctor engine Infinity method h = Done m h1 ->
  callback_probtrans engine debug_build pos_rule scip (probdata_ m) h1
    = Done (block, probdata) h2 ->
  callback_probdeltrans engine debug_build pos_rule scip (block, probdata) h2
    = Done tt h3 ->
  Model_dtor engine pos_rule m h3 = Done tt h4 ->
  exists evs, h4 = h ++ evs /\ acquired evs ≡ₚ released evs.
Proof.
  intros Hnn H0 H1 Hc Ht Hd Hx.
  destruct (ctor_then_dtor _ _ _ _ _ _ Hnn Hc Hx)
    as (e1 & e4 & vf & vt & vz & -> & -> & _ & _ & _ & Ha1 & Hr1 & Ha4 & Hr4).
  apply (callback_probtrans_ledger _ _ _ _ _ _ Hnn) in Ht
    as (e2 & -> & Ha2 & Hr2).
  apply callback_probdeltrans_ledger in Hd as (e3 & -> & Ha3 & Hr3).
  exists (e1 ++ e2 ++ e3 ++ e4). rewrite <- !app_assoc. split; [done|].
  rewrite !acquired_app, !released_app, Ha1, Hr1, Ha2, Hr2, Ha3, Hr3, Ha4, Hr4,
    H0, H1.
  simpl. rewrite !app_nil_r.
  set (held := (if is_null (cp_cons_ probdata) then []
                else [res_cons (cp_cons_ probdata)])
               ++ (res_var <$> positive_handles pos_rule probdata)
               ++ (res_var <$> present_handles (mip_int_vars_ probdata))).
  set (cons_part := match method with
                    | Method.BC => [res_cons (cp_cons_ (probdata_ m))]
                    | _ => []
                    end).
  etrans;
    [apply (Permutation_app_comm [res_var vf; res_var vz]
              (cons_part ++ res_block block :: held))|].
  rewrite (app_assoc (held ++ [res_block block])).
  apply Permutation_app_tail.
  etrans; [apply Permutation_app_comm|].
  apply Permutation_app_tail, Permutation_cons_append.
Qed.

(** *** More on the timer *)

Variable CLOCKS_PER_SEC : Z.
Variable clock_t_bits : Z.

Lemma clock_t_wrap_0 : clock_t_wrap clock_t_bits 0 = 0.
Proof.
  unfold clock_t_wrap. rewrite Z.add_0_l.
  destruct (Z.le_gt_cases 1 clock_t_bits) as [Hb|Hb].
  - rewrite Z.mod_small; [lia|]. split; [apply Z.pow_nonneg; lia|].
    apply Z.pow_lt_mono_r; lia.
  - rewrite (Z.pow_neg_r 2 (clock_t_bits - 1)) by lia.
    rewrite Zmod_0_l. done.
Qed.

Lemma not_positive_when_nan (x : Float) :
  (x =? x)%float = false -> (0 <? x)%float = false.
Proof.
  rewrite FloatAxioms.eqb_spec, FloatAxioms.ltb_spec.
  change (Prim2SF 0) with (S754_zero false).
  destruct (Prim2SF x) as [s|s| |s mx e]; unfold SFeqb, SFltb; simpl; try done.
  - destruct s; done.
  - rewrite Z.compare_refl, Pos.compare_cont_refl. destruct s; done.
Qed.

Lemma sub_zero_when_positive (x : Float) :
  (0 <? x)%float = true -> (x - 0)%float = x.
Proof.
  rewrite ltb_spec. intros H. apply Prim2SF_inj. rewrite sub_spec.
  change (Prim2SF 0) with (S754_zero false) in *.
  destruct (Prim2SF x) as [s|s| |s mx e]; try done.
Qed.

Lemma zero_div_positive (c : Float) :
  (0 <? c)%float = true -> (0 / c)%float = 0%float.
Proof.
  rewrite ltb_spec. intros H. apply Prim2SF_inj. rewrite div_spec.
  change (Prim2SF 0) with (S754_zero false) in *.
  destruct (Prim2SF c) as [s|s| |s mx e]; try done; destruct s; done.
Qed.

(** X15: [start_timer] rejects a time limit that is not a number: the
    comparison [time_limit > 0] is false for a NaN, so the run aborts
    with the diagnostic of the time limit and reads no clock. *)
Theorem start_timer_rejects_nan m time_limit h :
  (time_limit =? time_limit)%float = false ->
  start_timer engine m time_limit h
  = Fatal (release_assert_failed "Time limit {} is invalid"
             [arg_float time_limit]) h.
Proof.
  intros Hnan. apply not_positive_when_nan in Hnan.
  unfold start_timer, bind, release_assert, fatal. rewrite Hnan. done.
Qed.

(** X16: the budget at the start.  After [start_timer] returned, as long
    as the clock still gives the reading taken at the start,
    [get_cpu_time] is 0 and [get_time_remaining] is the whole time
    limit; each query reads the clock once.  [CLOCKS_PER_SEC] is
    positive. *)
Theorem full_budget_at_start m time_limit h m' h1 :
  (0 <? Float_of_Z CLOCKS_PER_SEC)%float = true ->
  start_timer engine m time_limit h = Done m' h1 ->
  out (engine h1 clock) = start_time_ m' ->
  get_cpu_time engine CLOCKS_PER_SEC clock_t_bits m' h1
  = Done 0%float (h1 ++ [(clock, engine h1 clock)])
  /\ get_time_remaining engine CLOCKS_PER_SEC clock_t_bits m' h1
     = Done time_limit (h1 ++ [(clock, engine h1 clock)]).
Proof.
  intros Hc Hs Hclock.
  assert (get_cpu_time engine CLOCKS_PER_SEC clock_t_bits m' h1
          = Done 0%float (h1 ++ [(clock, engine h1 clock)])) as Hcpu.
  { unfold get_cpu_time, bind, extern, ret.
    rewrite Hclock, Z.sub_diag, clock_t_wrap_0.
    change (Float_of_Z 0) with 0%float. rewrite (zero_div_positive _ Hc). done. }
  split; [done|].
  unfold get_time_remaining. rewrite (bind_run _ _ _ _ _ Hcpu). unfold ret.
  unfold start_timer in Hs. prog_inv; subst. simpl.
  rewrite sub_zero_when_positive by done. done.
Qed.

Lemma clock_t_wrap_range z :
  0 < clock_t_bits ->
  - 2 ^ (clock_t_bits - 1) <= clock_t_wrap clock_t_bits z < 2 ^ (clock_t_bits - 1)
  /\ (clock_t_wrap clock_t_bits z - z) mod 2 ^ clock_t_bits = 0
  /\ (- 2 ^ (clock_t_bits - 1) <= z < 2 ^ (clock_t_bits - 1) ->
      clock_t_wrap clock_t_bits z = z).
Proof.
  intros Hb. unfold clock_t_wrap.
  assert (2 ^ clock_t_bits = 2 * 2 ^ (clock_t_bits - 1)) as Hpow.
  { rewrite <- Z.pow_succ_r by lia. f_equal. lia. }
  assert (0 < 2 ^ (clock_t_bits - 1)) as Hhalf by (apply Z.pow_pos_nonneg; lia).
  set (half := 2 ^ (clock_t_bits - 1)) in *. rewrite Hpow.
  pose proof (Z.mod_pos_bound (z + half) (2 * half) ltac:(lia)) as Hm.
  split; [lia|]. split.
  - rewrite (Z.mod_eq (z + half) (2 * half)) by lia.
    replace (z + half - 2 * half * ((z + half) / (2 * half)) - half - z)
      with (- ((z + half) / (2 * half)) * (2 * half)) by lia.
    apply Z.mod_mul. lia.
  - intros Hz. rewrite Z.mod_small by lia. lia.
Qed.

(** X19: the elapsed time.  [get_cpu_time] reads the clock once and
    gives a tick count divided by [CLOCKS_PER_SEC]; the tick count is
    the difference between the reading and the baseline as a [clock_t]:
    the difference itself when that fits the type, and otherwise the
    value of the type that differs from it by a multiple of
    [2 ^ clock_t_bits].  [get_time_remaining] reads the clock once as
    well and gives the time limit minus that quotient. *)
Theorem get_cpu_time_elapsed m h :
  0 < clock_t_bits ->
  exists ticks,
    get_cpu_time engine CLOCKS_PER_SEC clock_t_bits m h
    = Done (Float_of_Z ticks / Float_of_Z CLOCKS_PER_SEC)%float
           (h ++ [(clock, engine h clock)])
    /\ get_time_remaining engine CLOCKS_PER_SEC clock_t_bits m h
       = Done (time_limit_ m - Float_of_Z ticks / Float_of_Z CLOCKS_PER_SEC)%float
              (h ++ [(clock, engine h clock)])
    /\ - 2 ^ (clock_t_bits - 1) <= ticks < 2 ^ (clock_t_bits - 1)
    /\ (ticks - (out (engine h clock) - start_time_ m)) mod 2 ^ clock_t_bits = 0
    /\ (- 2 ^ (clock_t_bits - 1) <= out (engine h clock) - start_time_ m
                                  < 2 ^ (clock_t_bits - 1) ->
        ticks = out (engine h clock) - start_time_ m).
Proof.
  intros Hb.
  exists (clock_t_wrap clock_t_bits (out (engine h clock) - start_time_ m)).
  split; [reflexivity|]. split; [reflexivity|].
  apply clock_t_wrap_range, Hb.
Qed.

End Properties.

(** ** The code run on the instances *)

Ltac run_code := vm_compute; reflexivity.

(** Prove the first conjunct of the goal by running the code, and keep
    it as [H]. *)
Ltac ran H :=
  match goal with
  | |- ?A /\ _ => assert (H : A) by run_code; split; [exact H|]
  end.

Lemma engine_fresh_nonnull : engine_nonnull engine_fresh.
Proof. intros h c _ _. unfold engine_fresh, nullptr. simpl. lia. Qed.

Lemma sample_data_aliases : aliases_point_back pos_rule_le sample_data.
Proof.
  intros [|[|[|idx]]] p Hpos Hp; try discriminate.
  injection Hp as <-. split; [lia|reflexivity].
Qed.

(** The constructed table breaks the invariant as the specification
    words it, whatever rule [is_pos_var] applies: the entry of index 0
    is 1. *)
Lemma neg_idx_self_or_back_fails :
  exists m h',
    Model_ctor engine_fresh infinity Method.BC [] = Done m h'
    /\ mip_neg_vars_idx_ (probdata_ m) !! 0%nat = Some 1
    /\ forall pos_rule, ~ neg_idx_self_or_back pos_rule (probdata_ m).
Proof.
  eexists _, _. ran H. split; [reflexivity|].
  intros pos_rule Hinv. destruct (Hinv 0%nat 1 eq_refl) as [_ [H1|[H1 _]]]; lia.
Qed.

Lemma neg_idx_after_construction_witness :
  exists m h',
    Model_ctor engine_fresh infinity Method.BC [] = Done m h'
    /\ length (mip_neg_vars_idx_ (probdata_ m)) = nb_bool_vars (probdata_ m)
    /\ length (bool_vars_name_ (probdata_ m)) = nb_bool_vars (probdata_ m)
    /\ (forall (i : nat) p,
          mip_neg_vars_idx_ (probdata_ m) !! i = Some p ->
          0 <= p < Z.of_nat (nb_bool_vars (probdata_ m))
          /\ p <> Z.of_nat i
          /\ ((i = 1%nat /\ p = 0) \/ (i = 0%nat /\ p = 1))).
Proof.
  eexists _, _. ran H.
  destruct (neg_idx_after_construction engine_fresh true pos_rule_le infinity
              Method.BC [] _ _ H) as (H1 & H2 & H3 & _).
  split; [exact H1|]. split; [exact H2|exact H3].
Defined.

Lemma callback_probtrans_walk_witness :
  aliases_point_back pos_rule_le sample_data
  /\ exists block probdata h',
       callback_probtrans engine_fresh true pos_rule_le 77 sample_data []
         = Done (block, probdata) h'
       /\ mip_bool_vars_ probdata = [3; 4; 5]
       /\ mip_int_vars_ probdata = [6; nullptr]
       /\ exists head bool_evs int_evs,
            h' = [] ++ head ++ bool_evs ++ int_evs
            /\ calls head = [SCIPallocBlockMemory 77; SCIPtransformCons 77 17]
            /\ length bool_evs = 3%nat
            /\ calls int_evs = [SCIPtransformVar 77 14].
Proof.
  split; [exact sample_data_aliases|].
  eexists _, _, _. ran H. split; [reflexivity|]. split; [reflexivity|].
  destruct (callback_probtrans_walk engine_fresh true pos_rule_le 77 sample_data
              [] _ _ _ sample_data_aliases H)
    as (head & bool_evs & int_evs & Hh & Hc & Hl & _ & Hi & _).
  exists head, bool_evs, int_evs. split; [exact Hh|].
  split; [exact Hc|]. split; [exact Hl|exact Hi].
Defined.

Lemma callback_probdeltrans_release_order_witness :
  exists h',
    callback_probdeltrans engine_fresh true pos_rule_le 77 (21, sample_data) []
      = Done tt h'
    /\ exists evs, h' = [] ++ evs
         /\ calls evs = [SCIPreleaseCons 77 17; SCIPreleaseVar 77 11;
                         SCIPreleaseVar 77 31; SCIPreleaseVar 77 14;
                         SCIPfreeBlockMemory 77 21].
Proof.
  eexists. ran H.
  exact (callback_probdeltrans_release_order engine_fresh true pos_rule_le 77 21
           sample_data [] _ H).
Defined.

Lemma Model_dtor_release_order_witness :
  exists m h1 h2,
    Model_ctor engine_fresh infinity Method.BC [] = Done m h1
    /\ Model_dtor engine_fresh pos_rule_le m h1 = Done tt h2
    /\ exists evs, h2 = h1 ++ evs
         /\ calls evs = [SCIPreleaseCons 1 17; SCIPreleaseVar 1 11;
                         SCIPreleaseVar 1 14; SCIPfree 1; BMScheckEmptyMemory].
Proof.
  eexists _, _, _. ran H. ran H'.
  exact (Model_dtor_release_order engine_fresh pos_rule_le _ _ _ H').
Defined.

Lemma probtrans_probdeltrans_neutral_witness :
  engine_nonnull engine_fresh
  /\ exists block probdata h1 h2,
       callback_probtrans engine_fresh true pos_rule_le 77 sample_data []
         = Done (block, probdata) h1
       /\ callback_probdeltrans engine_fresh true pos_rule_le 77
            (block, probdata) h1 = Done tt h2
       /\ exists e1 e2,
            h1 = [] ++ e1 /\ h2 = h1 ++ e2
            /\ acquired e1 = [res_block 1; res_cons 2; res_var 3; res_var 5;
                              res_var 6]
            /\ released e2 = [res_cons 2; res_var 3; res_var 5; res_var 6;
                              res_block 1]
            /\ acquired (e1 ++ e2) ≡ₚ released (e1 ++ e2).
Proof.
  split; [exact engine_fresh_nonnull|].
  eexists _, _, _, _. ran H. ran H'.
  destruct (probtrans_probdeltrans_neutral engine_fresh true pos_rule_le 77
              sample_data [] _ _ _ _ engine_fresh_nonnull H H')
    as (e1 & e2 & held & H1 & H2 & -> & Ha & _ & Hr & _ & Hp).
  exists e1, e2. split; [exact H1|]. split; [exact H2|].
  split; [exact Ha|]. split; [exact Hr|exact Hp].
Defined.

Lemma sentinels_after_construction_witness :
  exists m h',
    Model_ctor engine_fresh infinity Method.BC [] = Done m h'
    /\ sentinel_tables (probdata_ m)
    /\ obj_var_idx_ (probdata_ m) = 0.
Proof.
  eexists _, _. ran H.
  destruct (sentinels_after_construction engine_fresh true pos_rule_le infinity
              Method.BC [] _ _ H) as (H1 & H2 & _).
  split; [exact H1|exact H2].
Defined.

Lemma sentinels_alias_each_other_witness :
  exists m h',
    Model_ctor engine_fresh infinity Method.BC [] = Done m h'
    /\ mip_neg_vars_idx_ (probdata_ m) !! 0%nat = Some 1
    /\ mip_neg_vars_idx_ (probdata_ m) !! 1%nat = Some 0.
Proof.
  eexists _, _. ran H.
  destruct (sentinels_alias_each_other engine_fresh infinity Method.BC [] _ _ H)
    as (H1 & H2 & _).
  split; [exact H1|exact H2].
Defined.

Lemma fresh_model_solution_state_witness :
  exists m h',
    Model_ctor engine_fresh infinity Method.LBBD [] = Done m h'
    /\ status_ m = Status.Unknown
    /\ obj_ m = infinity
    /\ obj_bound_ m = neg_infinity
    /\ run_time_ m = 0%float.
Proof.
  eexists _, _. ran H.
  exact (fresh_model_solution_state engine_fresh infinity Method.LBBD [] _ _ H).
Defined.

(** [minimize] on a method that is none of the four, with a positive
    and with a negative time limit: whatever the strategies are, the run
    aborts on the method, and no clock reading was taken. *)
Lemma minimize_starts_no_timer :
  (forall bc lbbd mip cp,
      minimize bc lbbd mip cp (Model_init infinity (Method.Other 7)) 0 5%float []
      = Fatal (err_raised "Invalid method {}" [arg_int 7]) [])
  /\ (forall bc lbbd mip cp,
        minimize bc lbbd mip cp (Model_init infinity (Method.Other 7)) 0
                 (-1)%float []
        = Fatal (err_raised "Invalid method {}" [arg_int 7]) [])
  /\ clock ∉ calls [].
Proof.
  split; [reflexivity|]. split; [reflexivity|]. apply not_elem_of_nil.
Qed.

Lemma minimize_starts_timer_witness :
  (forall bc lbbd mip cp,
      minimize_timed engine_fresh bc lbbd mip cp
        (Model_init infinity Method.LBBD) 0 (-1)%float []
      = Fatal (release_assert_failed "Time limit {} is invalid"
                 [arg_float (-1)%float]) [])
  /\ (forall bc lbbd mip cp,
        minimize_timed engine_fresh bc lbbd mip cp
          (Model_init infinity Method.LBBD) 0 nan []
        = Fatal (release_assert_failed "Time limit {} is invalid"
                   [arg_float nan]) [])
  /\ (forall bc lbbd mip cp, exists now m',
        time_limit_ m' = 5%float /\ start_time_ m' = out now
        /\ minimize_timed engine_fresh bc lbbd mip cp
             (Model_init infinity Method.LBBD) 0 5%float []
           = lbbd m' 0 5%float [(clock, now)]).
Proof.
  split; [|split]; intros bc lbbd mip cp.
  - exact (proj1 (proj2 (minimize_starts_timer engine_fresh bc lbbd mip cp
                           (Model_init infinity Method.LBBD) 0 (-1)%float []))
             eq_refl).
  - exact (proj1 (minimize_starts_timer engine_fresh bc lbbd mip cp
                    (Model_init infinity Method.LBBD) 0 nan []) eq_refl).
  - destruct (proj2 (proj2 (minimize_starts_timer engine_fresh bc lbbd mip cp
                              (Model_init infinity Method.LBBD) 0 5%float []))
                eq_refl) as (now & m' & _ & Hl & Ht & _ & _ & _ & _ & _ & _ & _ & _ & Hr).
    exists now, m'. split; [exact Hl|]. split; [exact Ht|exact Hr].
Defined.

(** ** More runs on the instances *)

Lemma engine_fresh_accepts : engine_accepts engine_fresh.
Proof. intros h c. reflexivity. Qed.

Lemma Model_ctor_returns_witness :
  engine_accepts engine_fresh /\ engine_nonnull engine_fresh
  /\ exists m h', Model_ctor engine_fresh infinity Method.CP [] = Done m h'.
Proof.
  split; [exact engine_fresh_accepts|]. split; [exact engine_fresh_nonnull|].
  exact (Model_ctor_returns engine_fresh infinity Method.CP []
           engine_fresh_accepts engine_fresh_nonnull).
Defined.

Lemma Model_dtor_returns_witness :
  engine_accepts engine_fresh
  /\ exists h', Model_dtor engine_fresh pos_rule_le sample_model [] = Done tt h'.
Proof.
  split; [exact engine_fresh_accepts|].
  exact (Model_dtor_returns engine_fresh pos_rule_le sample_model []
           engine_fresh_accepts).
Defined.

Lemma Model_dtor_aborts_on_refusal_witness :
  exists d h',
    Model_dtor (engine_stops_at 1) pos_rule_le sample_model [] = Fatal d h'
    /\ d = scip_assert_failed (SCIPreleaseVar 1 11) (SCIP_FAILED 0)
    /\ refused_last_call h' d
    /\ exists evs, h' = [] ++ evs
         /\ calls evs `prefix_of`
              (release_calls pos_rule_le 1 sample_data ++ [SCIPfree 1])
         /\ BMScheckEmptyMemory ∉ calls evs.
Proof.
  eexists _, _. ran H. split; [reflexivity|].
  exact (Model_dtor_aborts_on_refusal (engine_stops_at 1) pos_rule_le
           sample_model [] _ _ H).
Defined.

Lemma callback_probdeltrans_aborts_on_refusal_witness :
  exists d h',
    callback_probdeltrans (engine_stops_at 0) true pos_rule_le 77
      (21, sample_data) [] = Fatal d h'
    /\ d = scip_assert_failed (SCIPreleaseCons 77 17) (SCIP_FAILED 0)
    /\ exists evs, h' = [] ++ evs
         /\ calls evs `prefix_of` release_calls pos_rule_le 77 sample_data
         /\ SCIPfreeBlockMemory 77 21 ∉ calls evs.
Proof.
  eexists _, _. ran H. split; [reflexivity|].
  exact (proj2 (callback_probdeltrans_aborts_on_refusal (engine_stops_at 0) true
                  pos_rule_le 77 21 sample_data [] _ _ H)).
Defined.

Lemma callback_probtrans_aborts_on_refusal_witness :
  aliases_point_back pos_rule_le sample_data
  /\ exists d h',
       callback_probtrans (engine_stops_at 2) true pos_rule_le 77 sample_data []
         = Fatal d h'
       /\ d = scip_assert_failed (SCIPtransformVar 77 11) (SCIP_FAILED 0)
       /\ refused_last_call h' d.
Proof.
  split; [exact sample_data_aliases|].
  eexists _, _. ran H. split; [reflexivity|].
  exact (callback_probtrans_aborts_on_refusal (engine_stops_at 2) true
           pos_rule_le 77 sample_data [] _ _ sample_data_aliases eq_refl H).
Defined.



Lemma debug_build_rejects_forward_alias_witness :
  is_pos_var pos_rule_self sample_data 0 = false
  /\ mip_neg_vars_idx_ sample_data !! 0%nat = Some 1
  /\ exists d h',
       callback_probtrans engine_fresh true pos_rule_self 77 sample_data []
         = Fatal d h'.
Proof.
  split; [reflexivity|]. split; [reflexivity|].
  apply (debug_build_rejects_forward_alias engine_fresh true pos_rule_self 77
           sample_data [] 0%nat 1); [reflexivity|reflexivity| | reflexivity|].
  - unfold nb_bool_vars. simpl. lia.
  - simpl. lia.
Defined.

Lemma forward_alias_negates_source_handle_witness :
  exists block probdata h',
    callback_probtrans engine_fresh false pos_rule_self 77 sample_data []
      = Done (block, probdata) h'
    /\ mip_bool_vars_ sample_data !! 1%nat = Some 13
    /\ exists r evs,
         h' = [] ++ evs
         /\ (SCIPgetNegatedVar 77 13, r) ∈ evs
         /\ mip_bool_vars_ probdata !! 0%nat = Some (out r).
Proof.
  eexists _, _, _. ran H. split; [reflexivity|].
  destruct (forward_alias_negates_source_handle engine_fresh false pos_rule_self
              77 sample_data [] _ _ _ 0%nat 1 13 H)
    as (_ & r & evs & Hh & Hin & Hv);
    [reflexivity| unfold nb_bool_vars; simpl; lia | reflexivity
    | unfold nb_bool_vars; simpl; lia | reflexivity |].
  exists r, evs. split; [exact Hh|]. split; [exact Hin|exact Hv].
Defined.

Lemma Model_ctor_call_sequence_witness :
  exists m h',
    Model_ctor engine_fresh infinity Method.BC [] = Done m h'
    /\ exists evs,
         h' = [] ++ evs /\ calls evs = ctor_calls Method.BC 1 11 14 17.
Proof.
  eexists _, _. ran H.
  destruct (Model_ctor_call_sequence engine_fresh infinity Method.BC [] _ _ H)
    as (evs & vf & vz & Hh & Hf & Hz & Hc & _).
  exists evs. split; [exact Hh|].
  assert (vf = 11) as -> by (simpl in Hf; congruence).
  assert (vz = 14) as -> by (simpl in Hz; congruence).
  exact Hc.
Defined.

Lemma Model_ctor_tables_witness :
  exists m h',
    Model_ctor engine_fresh infinity Method.MIP [] = Done m h'
    /\ tables_aligned (probdata_ m)
    /\ nb_bool_vars (probdata_ m) = 2%nat.
Proof.
  eexists _, _. ran H.
  destruct (Model_ctor_tables engine_fresh infinity Method.MIP [] _ _ H)
    as (H1 & H2 & _).
  split; [exact H1|exact H2].
Defined.

Lemma Model_ctor_aborts_witness :
  exists d h',
    Model_ctor (engine_stops_at 3) infinity Method.BC [] = Fatal d h'
    /\ d = scip_assert_failed (SCIPsetIntParam 1 "lp/threads" 1) (SCIP_FAILED 0)
    /\ (refused_last_call h' d \/ null_variable_created h' d).
Proof.
  eexists _, _. ran H. split; [reflexivity|].
  exact (Model_ctor_aborts (engine_stops_at 3) infinity Method.BC [] _ _ H).
Defined.

Lemma ctor_dtor_ledger_witness :
  engine_nonnull engine_fresh
  /\ exists m h1 h2,
       Model_ctor engine_fresh infinity Method.BC [] = Done m h1
       /\ Model_dtor engine_fresh pos_rule_le m h1 = Done tt h2
       /\ exists e1 e2,
            h1 = [] ++ e1 /\ h2 = h1 ++ e2
            /\ acquired e1 = [res_var 11; res_var 14; res_cons 17]
            /\ released e2 = [res_cons 17; res_var 11; res_var 14]
            /\ acquired (e1 ++ e2) ≡ₚ released (e1 ++ e2).
Proof.
  split; [exact engine_fresh_nonnull|].
  eexists _, _, _. ran H. ran H'.
  destruct (ctor_dtor_ledger engine_fresh pos_rule_le infinity Method.BC [] _ _ _
              engine_fresh_nonnull H H')
    as (e1 & e2 & vf & vt & vz & cp & H1 & H2 & Hb & Hi & -> & Ha & _ & _ & Hr
        & Hp).
  injection Hb as <- <-. injection Hi as <-.
  exists e1, e2. split; [exact H1|]. split; [exact H2|].
  split; [exact Ha|]. split; [exact Hr|]. exact (Hp eq_refl eq_refl).
Defined.

Lemma constructed_model_transforms_witness :
  engine_accepts engine_fresh /\ pos_rule_le [1; 0] 0 = true
  /\ exists m h1,
       Model_ctor engine_fresh infinity Method.BC [] = Done m h1
       /\ exists block probdata h3,
            callback_probtrans engine_fresh true pos_rule_le 77 (probdata_ m) h1
              = Done (block, probdata) h3.
Proof.
  split; [exact engine_fresh_accepts|]. split; [reflexivity|].
  eexists _, _. ran H.
  exact (constructed_model_transforms engine_fresh true pos_rule_le infinity
           Method.BC [] _ _ 77 _ engine_fresh_accepts eq_refl H).
Defined.

Lemma constructed_model_needs_positive_false_witness :
  pos_rule_self [1; 0] 0 = false
  /\ exists m h1,
       Model_ctor engine_fresh infinity Method.BC [] = Done m h1
       /\ exists d h3,
            callback_probtrans engine_fresh true pos_rule_self 77 (probdata_ m) h1
              = Fatal d h3.
Proof.
  split; [reflexivity|].
  eexists _, _. ran H.
  exact (constructed_model_needs_positive_false engine_fresh true pos_rule_self
           infinity Method.BC [] _ _ 77 _ eq_refl eq_refl H).
Defined.

Lemma whole_life_is_neutral_witness :
  engine_nonnull engine_fresh
  /\ exists m h1 block probdata h2 h3 h4,
       Model_ctor engine_fresh infinity Method.BC [] = Done m h1
       /\ callback_probtrans engine_fresh true pos_rule_le (mip_ m) (probdata_ m) h1
          = Done (block, probdata) h2
       /\ callback_probdeltrans engine_fresh true pos_rule_le (mip_ m)
            (block, probdata) h2 = Done tt h3
       /\ Model_dtor engine_fresh pos_rule_le m h3 = Done tt h4
       /\ exists evs, h4 = [] ++ evs /\ acquired evs ≡ₚ released evs.
Proof.
  split; [exact engine_fresh_nonnull|].
  eexists _, _, _, _, _, _, _. ran H1. ran H2. ran H3. ran H4.
  exact (whole_life_is_neutral engine_fresh true pos_rule_le infinity Method.BC
           _ [] _ _ _ _ _ _ _ engine_fresh_nonnull eq_refl eq_refl H1 H2 H3 H4).
Defined.

Lemma start_timer_rejects_nan_witness :
  (nan =? nan)%float = false
  /\ start_timer engine_fresh sample_model nan []
     = Fatal (release_assert_failed "Time limit {} is invalid" [arg_float nan]) [].
Proof.
  split; [reflexivity|].
  exact (start_timer_rejects_nan engine_fresh sample_model nan [] eq_refl).
Defined.

(** An engine whose clock reads the largest 64-bit value. *)
Lemma get_cpu_time_elapsed_witness :
  0 < 64
  /\ exists ticks,
       get_cpu_time (fun _ _ => {| retcode := SCIP_OKAY; out := 2 ^ 63 - 1 |})
         1000000 64 (set_timer 5%float (- 2 ^ 63 + 500000) sample_model) []
       = Done (Float_of_Z ticks / Float_of_Z 1000000)%float
           [(clock, {| retcode := SCIP_OKAY; out := 2 ^ 63 - 1 |})]
       /\ - 2 ^ (64 - 1) <= ticks < 2 ^ (64 - 1)
       /\ (ticks - (2 ^ 63 - 1 - (- 2 ^ 63 + 500000))) mod 2 ^ 64 = 0.
Proof.
  split; [lia|].
  destruct (get_cpu_time_elapsed
              (fun _ _ => {| retcode := SCIP_OKAY; out := 2 ^ 63 - 1 |})
              1000000 64 (set_timer 5%float (- 2 ^ 63 + 500000) sample_model) []
              ltac:(lia))
    as (ticks & Hc & _ & Hr & Hm & _).
  exists ticks. split; [exact Hc|]. split; [exact Hr|exact Hm].
Defined.

Lemma full_budget_at_start_witness :
  (0 <? Float_of_Z 1000000)%float = true
  /\ exists m' h1,
       start_timer engine_still sample_model 5%float [] = Done m' h1
       /\ out (engine_still h1 clock) = start_time_ m'
       /\ get_cpu_time engine_still 1000000 64 m' h1
          = Done 0%float (h1 ++ [(clock, engine_still h1 clock)])
       /\ get_time_remaining engine_still 1000000 64 m' h1
          = Done 5%float (h1 ++ [(clock, engine_still h1 clock)]).
Proof.
  split; [reflexivity|].
  eexists _, _. ran H. split; [reflexivity|].
  exact (full_budget_at_start engine_still 1000000 64 sample_model 5%float [] _ _
           eq_refl H eq_refl).
Defined.
